(** * Oil runtime fragments: the [Str] object and the path helpers

    A shallow embedding of [mycpp/str_types.h] ([Str], [len],
    [Str::SetObjLenFromStrLen]) and of [cpp/leaky_pylib.cc]
    ([os_path::rstrip_slashes], [path_stat::exists]).

    C++ pointers are locations of a store; every function that takes a
    [Str*] is a computation over that store.  A computation either returns,
    trips an [assert], or leaves the behaviour the C++ standard defines
    (signed overflow, reading outside an allocation, reading an
    indeterminate byte, dereferencing a dangling pointer). *)

From Stdlib Require Import ZArith Lia.
From Stdlib.Strings Require Import Byte String.
From stdpp Require Import gmap list.

Local Open Scope Z_scope.

(** ** The [int] type *)

Definition INT_MAX : Z := 2147483647.
Definition INT_MIN : Z := -2147483648.
Definition sizeof_int : Z := 4.

Definition in_int (z : Z) : bool := (INT_MIN <=? z) && (z <=? INT_MAX).

(** ** Outcomes and the store monad *)

Inductive outcome (A : Type) : Type :=
  | Ok (a : A)
  | AssertFail
  | Undefined.
Arguments Ok {A} a.
Arguments AssertFail {A}.
Arguments Undefined {A}.

(** Modelled from the spec: the [Obj] base class is not among the sources.
    The header discriminant has the two values the spec names; the source
    only ever mentions [Tag::Opaque]. *)
Inductive Tag : Type := Opaque | Scannable.

(** Modelled from the spec: [kZeroMask], the all-zero field mask stamped on
    strings. *)
Definition kZeroMask : Z := 0.

(** Modelled from the spec: the fields of [Obj] ("Object header": a tag, a
    field mask and the total byte length of the object), in the order of
    the constructor call [Obj(Tag::Opaque, kZeroMask, 0)].  The length
    field has the name the sources read it by, [obj_len_], and holds an
    [int], the type of the constructor argument and of the result of
    [len]. *)
Record Obj : Type := mkObj {
  heap_tag_ : Tag;
  field_mask_ : Z;
  obj_len_ : Z
}.

(** [class Str : public Obj].  [data_] lists the bytes of the allocation
    from offset [kStrHeaderSize] on, so its length is the room the
    allocator reserved behind the header. *)
Record Str : Type := mkStr {
  Str_Obj :> Obj;
  hash_value_ : Z;
  data_ : list byte
}.

(** The assignment [obj_len_ = n] to a field of [o]. *)
Definition with_obj_len (o : Str) (n : Z) : Str :=
  {| Str_Obj := {| heap_tag_ := heap_tag_ o; field_mask_ := field_mask_ o;
                   obj_len_ := n |};
     hash_value_ := hash_value_ o; data_ := data_ o |}.

(** A store cell is a [Str] object or a raw [malloc] block; a byte of a raw
    block is indeterminate ([None]) until it is written. *)
Inductive cell : Type :=
  | CStr (s : Str)
  | CBuf (b : list (option byte)).

Definition loc : Type := positive.
Abbreviation heap := (gmap loc cell).

Definition M (A : Type) : Type := heap -> outcome (A * heap).

Definition ret {A} (a : A) : M A := fun h => Ok (a, h).

Definition bind {A B} (m : M A) (k : A -> M B) : M B :=
  fun h =>
    match m h with
    | Ok (a, h') => k a h'
    | AssertFail => AssertFail
    | Undefined => Undefined
    end.

Notation "x <- m ;; k" := (bind m (fun x => k))
  (at level 100, m at next level, right associativity).
Notation "m ;;; k" := (bind m (fun _ => k))
  (at level 100, right associativity).

Definition undefined {A} : M A := fun _ => Undefined.

(** [assert(b)] with assertions compiled in. *)
Definition assert (b : bool) : M unit :=
  fun h => if b then Ok (tt, h) else AssertFail.

(** Arithmetic on [int]: a result outside the type is undefined. *)
Definition int_of (z : Z) : M Z := if in_int z then ret z else undefined.
Definition int_add (a b : Z) : M Z := int_of (a + b).
Definition int_sub (a b : Z) : M Z := int_of (a - b).

(** [*p] for [p : Str*]. *)
Definition load_Str (p : loc) : M Str :=
  fun h =>
    match h !! p with
    | Some (CStr s) => Ok (s, h)
    | _ => Undefined
    end.

Definition store_Str (p : loc) (s : Str) : M unit :=
  fun h =>
    match h !! p with
    | Some (CStr _) => Ok (tt, <[p := CStr s]> h)
    | _ => Undefined
    end.

Definition load_buf (p : loc) : M (list (option byte)) :=
  fun h =>
    match h !! p with
    | Some (CBuf b) => Ok (b, h)
    | _ => Undefined
    end.

Definition store_buf (p : loc) (b : list (option byte)) : M unit :=
  fun h =>
    match h !! p with
    | Some (CBuf _) => Ok (tt, <[p := CBuf b]> h)
    | _ => Undefined
    end.

(** A new cell at an address no live cell has.  Allocation is taken to
    succeed: [malloc] returning null and [new] throwing are not modelled. *)
Definition alloc (c : cell) : M loc :=
  fun h => let p := fresh (dom h) in Ok (p, <[p := c]> h).

(** [malloc(n)]: [n] indeterminate bytes. *)
Definition malloc (n : Z) : M loc :=
  if 0 <=? n then alloc (CBuf (replicate (Z.to_nat n) None)) else undefined.

(** [p->data_[i]]. *)
Definition Str_data_at (p : loc) (i : Z) : M byte :=
  s <- load_Str p ;;
  if 0 <=? i then
    match data_ s !! Z.to_nat i with
    | Some c => ret c
    | None => undefined
    end
  else undefined.

(** [memcpy(dst, src->data_, n)] for a raw block [dst]. *)
Definition memcpy_data (dst src : loc) (n : Z) : M unit :=
  s <- load_Str src ;;
  b <- load_buf dst ;;
  if (0 <=? n) && (n <=? Z.of_nat (length (data_ s)))
     && (n <=? Z.of_nat (length b)) then
    store_buf dst ((Some <$> take (Z.to_nat n) (data_ s)) ++ drop (Z.to_nat n) b)
  else undefined.

(** [buf[i] = c] for a raw block [buf]. *)
Definition store_char (buf : loc) (i : Z) (c : byte) : M unit :=
  b <- load_buf buf ;;
  if (0 <=? i) && (i <? Z.of_nat (length b)) then
    store_buf buf (<[Z.to_nat i := Some c]> b)
  else undefined.

(** The first [n] bytes of a raw block, all of which must have been
    written. *)
Definition read_bytes (buf : loc) (n : Z) : M (list byte) :=
  b <- load_buf buf ;;
  if (0 <=? n) && (n <=? Z.of_nat (length b)) then
    match mapM id (take (Z.to_nat n) b) with
    | Some bytes => ret bytes
    | None => undefined
    end
  else undefined.

#[global] Instance byte_eq_decision : EqDecision byte := Byte.byte_eq_dec.

Definition slash : byte := "/"%byte.
Definition NUL : byte := "000"%byte.

(** The bytes of a C string stored in [l]: those before the first NUL.
    Without a NUL inside [l] the reader runs off the allocation. *)
Fixpoint c_str (l : list byte) : option (list byte) :=
  match l with
  | [] => None
  | c :: l' =>
      if Byte.eqb c NUL then Some []
      else match c_str l' with
           | Some r => Some (c :: r)
           | None => None
           end
  end.

(** ** POSIX [stat] *)

(** What a call of [::stat] does: as POSIX has it, it returns 0 and fills
    the buffer, or returns -1 and sets [errno]. *)
Inductive stat_result : Type :=
  | StatOk (st_mode : Z)
  | StatErr (errno : Z).

Definition stat_rc (r : stat_result) : Z :=
  match r with
  | StatOk _ => 0
  | StatErr _ => -1
  end.

Section Runtime.

(** [constexpr int kStrHeaderSize = offsetof(Str, data_)]: fixed by the
    layout of [Obj], which is not among the sources. *)
Variable kStrHeaderSize : Z.

(** The file system, as [::stat] sees it. *)
Variable stat : list byte -> stat_result.

(** *** mycpp/str_types.h *)

(** [explicit Str() : Obj(Tag::Opaque, kZeroMask, 0)], run over an
    allocation whose bytes behind the header are [raw].  The constructor
    leaves [hash_value_] as the allocator handed it out. *)
Definition Str_ctor (hash : Z) (raw : list byte) : Str :=
  {| Str_Obj := mkObj Opaque kZeroMask 0; hash_value_ := hash; data_ := raw |}.

(** [inline int len(const Str* s)]. *)
Definition len (s : loc) : M Z :=
  o <- load_Str s ;;
  lo <- int_sub kStrHeaderSize 1 ;;
  assert (lo <=? obj_len_ o) ;;;
  t <- int_sub (obj_len_ o) kStrHeaderSize ;;
  int_sub t 1.

(** [inline void Str::SetObjLenFromStrLen(int str_len)]. *)
Definition SetObjLenFromStrLen (this : loc) (str_len : Z) : M unit :=
  o <- load_Str this ;;
  t <- int_add kStrHeaderSize str_len ;;
  n <- int_add t 1 ;;
  store_Str this (with_obj_len o n).

(** Modelled from the spec: the constructor [Str(const char*, int)] that
    [rstrip_slashes] calls is not among the sources.  Section 4.1,
    construction from a byte range [(bytes, n)]: "allocate an object of
    size [header_size + n + 1]; copy bytes; write trailing NUL; set
    [hash_value = 0]"; the object does not alias the argument bytes. *)
Definition new_Str (buf : loc) (n : Z) : M loc :=
  bytes <- read_bytes buf n ;;
  t <- int_add kStrHeaderSize n ;;
  obj_len <- int_add t 1 ;;
  alloc (CStr {| Str_Obj := mkObj Opaque kZeroMask obj_len; hash_value_ := 0;
                 data_ := bytes ++ [NUL] |}).

(** *** cpp/leaky_pylib.cc *)

(** The scan [for (int i = n - 1; i >= 0; i--)] of [rstrip_slashes], with
    [k = i + 1] indices left to look at: at [k = 0] the test [i >= 0]
    fails; otherwise [s->data_[i]] is read and the loop either goes on
    with [new_len - 1] or breaks. *)
Fixpoint rstrip_scan (s : loc) (k : nat) (new_len : Z) : M Z :=
  match k with
  | O => ret new_len
  | S i =>
      c <- Str_data_at s (Z.of_nat i) ;;
      if Byte.eqb c slash then
        new_len' <- int_sub new_len 1 ;;
        rstrip_scan s i new_len'
      else ret new_len
  end.

(** [Str* os_path::rstrip_slashes(Str* s)]. *)
Definition rstrip_slashes (s : loc) : M loc :=
  n <- len s ;;
  if n =? 0 then ret s
  else
    new_len <- rstrip_scan s (Z.to_nat n) n ;;
    if new_len =? 0 then ret s
    else
      sz <- int_add new_len 1 ;;
      buf <- malloc sz ;;
      memcpy_data buf s new_len ;;;
      store_char buf new_len NUL ;;;
      new_Str buf new_len.

(** [bool path_stat::exists(Str* path)]. *)
Definition exists_ (path : loc) : M bool :=
  p <- load_Str path ;;
  match c_str (data_ p) with
  | Some name => if stat_rc (stat name) <? 0 then ret false else ret true
  | None => undefined
  end.

End Runtime.

(** ** Vocabulary of the statements *)

(** The layout constant is an [int], and [data_] comes after the [int]
    field [hash_value_]. *)
Definition header_ok (hdr : Z) : Prop := sizeof_int <= hdr <= INT_MAX.

(** String length: [obj_len_] without the header and the NUL. *)
Definition Str_len (hdr : Z) (o : Str) : Z := obj_len_ o - hdr - 1.

(** The byte payload [data_[0 .. len)]. *)
Definition payload (hdr : Z) (o : Str) : list byte :=
  take (Z.to_nat (Str_len hdr o)) (data_ o).

(** A constructed string: its length is not negative, its object length is
    an [int], and the allocation holds the payload and one more byte. *)
Definition Str_wf (hdr : Z) (o : Str) : Prop :=
  hdr + 1 <= obj_len_ o <= INT_MAX /\
  obj_len_ o - hdr <= Z.of_nat (length (data_ o)).

(** [data_[len] == 0]. *)
Definition nul_terminated (hdr : Z) (o : Str) : Prop :=
  data_ o !! Z.to_nat (Str_len hdr o) = Some NUL.

Definition is_slash (c : byte) : bool := Byte.eqb c slash.

Fixpoint drop_while {A} (f : A -> bool) (l : list A) : list A :=
  match l with
  | [] => []
  | x :: l' => if f x then drop_while f l' else l
  end.

(** The words of the spec, "trailing [/] bytes removed": drop the slashes
    at the front of the reversed list and reverse back. *)
Definition strip_trailing_slashes (l : list byte) : list byte :=
  reverse (drop_while is_slash (reverse l)).

(** The words of the spec for the whole function: an all-slashes (or
    empty) payload is kept, any other loses its trailing slashes. *)
Definition rstrip_payload (l : list byte) : list byte :=
  if forallb is_slash l then l else strip_trailing_slashes l.

(** How many of the bytes [data[0 .. k)] the scan of [rstrip_slashes] steps
    over, counted from index [k - 1] down. *)
Fixpoint trailing_slashes (data : list byte) (k : nat) : nat :=
  match k with
  | O => O
  | S i =>
      match data !! i with
      | Some c => if is_slash c then S (trailing_slashes data i) else O
      | None => O
      end
  end.

(** The object the allocator lays out for the bytes [bs]. *)
Definition Str_of_bytes (hdr : Z) (bs : list byte) : Str :=
  {| Str_Obj := mkObj Opaque kZeroMask (hdr + Z.of_nat (length bs) + 1);
     hash_value_ := 0; data_ := bs ++ [NUL] |}.

Definition Str_of (hdr : Z) (s : string) : Str :=
  Str_of_bytes hdr (list_byte_of_string s).

(** The header size of the examples: a 4-byte tag and mask, a 4-byte
    [obj_len_] and the 4-byte [hash_value_]. *)
Definition hdr12 : Z := 12.

(** A store with one string at address 1. *)
Definition one_Str (o : Str) : heap := {[ 1%positive := CStr o ]}.

(** A file system that has the root directory and nothing else. *)
Definition root_only (name : list byte) : stat_result :=
  if decide (name = ["/"%byte]) then StatOk 16877 else StatErr 2.

(** ** mycpp/target_lang.cc *)

(** The exceptions the file throws: [class FatalError {}], its subclass
    [ParseError] with the field [reason_], and [std::invalid_argument]
    with its message. *)
Inductive exn : Type :=
  | FatalError
  | ParseError (reason_ : string)
  | invalid_argument (what : string).

(** A call returns a value or leaves by an exception. *)
Inductive result (A : Type) : Type :=
  | Return (a : A)
  | Throw (e : exn).
Arguments Return {A} a.
Arguments Throw {A} e.

(** [int compare(int a, int b)]; the result is the [bool] [a < b] converted
    to [int]. *)
Definition compare (a b : Z) : result Z :=
  if (a <? 0) || (b <? 0) then
    Throw (invalid_argument "received negative value")
  else Return (if a <? b then 1 else 0).

(** [text[0]] for a C string with the bytes [text] before its NUL. *)
Definition first_char (text : list byte) : byte :=
  match text with
  | [] => NUL
  | c :: _ => c
  end.

(** [int parse(const char* text)]. *)
Definition parse (text : list byte) : result Z :=
  if Byte.eqb (first_char text) "f"%byte then
    Throw (ParseError "started with f")
  else Return 0.

(** [int] arithmetic outside the store monad: [None] is an overflow. *)
Definition checked (z : Z) : option Z := if in_int z then Some z else None.

(** [class PointC] and its subclass [SubPointC], which adds no field: an
    object is the two coordinates and the class it was constructed as,
    which is what a call of the virtual [mag] dispatches on. *)
Inductive PointC_class : Type := PointC_t | SubPointC_t.

Record PointC : Type := mkPointC {
  dynamic_class : PointC_class;
  x_ : Z;
  y_ : Z
}.

(** [PointC::mag]: [x_ * x_ + y_ * y_]. *)
Definition PointC_mag (p : PointC) : option Z :=
  match checked (x_ p * x_ p), checked (y_ p * y_ p) with
  | Some xx, Some yy => checked (xx + yy)
  | _, _ => None
  end.

(** [SubPointC::mag]: [return 0]. *)
Definition SubPointC_mag (p : PointC) : option Z := Some 0.

(** The virtual call [p.mag()]. *)
Definition mag (p : PointC) : option Z :=
  match dynamic_class p with
  | PointC_t => PointC_mag p
  | SubPointC_t => SubPointC_mag p
  end.

(** [template <class T> class Array]: an object is its only field, the
    vector [v_]. *)
Definition Array (T : Type) : Type := list T.

(** [v_.push_back(item)]. *)
Definition push_back {T} (v : list T) (item : T) : list T := v ++ [item].

(** [Array()]. *)
Definition Array_new {T} : Array T := [].

(** [Array(std::initializer_list<T> init)]: [v_] starts empty and the loop
    pushes the elements of [init] one by one. *)
Definition Array_of {T} (init : list T) : Array T :=
  fold_left push_back init [].

(** [void append(T item)]. *)
Definition append {T} (a : Array T) (item : T) : Array T := push_back a item.

(** [int size()]: [v_.size()], a [size_t], converted to [int]; a value
    above [INT_MAX] wraps around modulo 2^32. *)
Definition size_ {T} (a : Array T) : Z :=
  let n := Z.of_nat (length a) mod 2 ^ 32 in
  if n <=? INT_MAX then n else n - 2 ^ 32.

(** ** The store monad *)

Lemma bind_Ok {A B} (m : M A) (k : A -> M B) h a h' :
  m h = Ok (a, h') -> bind m k h = k a h'.
Proof. unfold bind. intros ->. reflexivity. Qed.

Lemma in_int_true z : INT_MIN <= z <= INT_MAX -> in_int z = true.
Proof.
  intros [Hlo Hhi]. unfold in_int.
  apply andb_true_intro. split; apply Z.leb_le; assumption.
Qed.

Lemma int_of_Ok z h : INT_MIN <= z <= INT_MAX -> int_of z h = Ok (z, h).
Proof. intros Hz. unfold int_of. rewrite in_int_true by exact Hz. reflexivity. Qed.

Lemma int_add_Ok a b h : INT_MIN <= a + b <= INT_MAX -> int_add a b h = Ok (a + b, h).
Proof. apply int_of_Ok. Qed.

Lemma int_sub_Ok a b h : INT_MIN <= a - b <= INT_MAX -> int_sub a b h = Ok (a - b, h).
Proof. apply int_of_Ok. Qed.

Lemma load_Str_Ok p o (h : heap) : h !! p = Some (CStr o) -> load_Str p h = Ok (o, h).
Proof. unfold load_Str. intros ->. reflexivity. Qed.

Lemma store_Str_Ok p o o' (h : heap) :
  h !! p = Some (CStr o) -> store_Str p o' h = Ok (tt, <[p := CStr o']> h).
Proof. unfold store_Str. intros ->. reflexivity. Qed.

Lemma load_buf_Ok p b (h : heap) : h !! p = Some (CBuf b) -> load_buf p h = Ok (b, h).
Proof. unfold load_buf. intros ->. reflexivity. Qed.

Lemma store_buf_Ok p b b' (h : heap) :
  h !! p = Some (CBuf b) -> store_buf p b' h = Ok (tt, <[p := CBuf b']> h).
Proof. unfold store_buf. intros ->. reflexivity. Qed.

Lemma alloc_fresh c (h : heap) :
  exists p, h !! p = None /\ alloc c h = Ok (p, <[p := c]> h).
Proof.
  exists (fresh (dom h)). split; [| reflexivity].
  apply not_elem_of_dom. apply is_fresh.
Qed.

Lemma Str_data_at_Ok p o (i : nat) c (h : heap) :
  h !! p = Some (CStr o) -> data_ o !! i = Some c ->
  Str_data_at p (Z.of_nat i) h = Ok (c, h).
Proof.
  intros Hp Hc. unfold Str_data_at.
  rewrite (bind_Ok _ _ _ _ _ (load_Str_Ok _ _ _ Hp)).
  destruct (Z.leb_spec 0 (Z.of_nat i)); [| lia].
  rewrite Nat2Z.id, Hc. reflexivity.
Qed.

(** ** Lists of bytes *)

Lemma is_slash_true c : is_slash c = true -> c = slash.
Proof. apply Byte.byte_dec_bl. Qed.

Lemma drop_while_replicate_slash t (l : list byte) :
  drop_while is_slash (replicate t slash ++ l) = drop_while is_slash l.
Proof. induction t as [| t IH]; simpl; [reflexivity | exact IH]. Qed.

Lemma strip_app_slashes (p : list byte) t :
  strip_trailing_slashes (p ++ replicate t slash) = strip_trailing_slashes p.
Proof.
  unfold strip_trailing_slashes.
  rewrite reverse_app, reverse_replicate, drop_while_replicate_slash.
  reflexivity.
Qed.

Lemma strip_snoc_other (p : list byte) c :
  is_slash c = false -> strip_trailing_slashes (p ++ [c]) = p ++ [c].
Proof.
  intros Hc. unfold strip_trailing_slashes.
  rewrite reverse_snoc. simpl. rewrite Hc.
  rewrite <- reverse_snoc. apply reverse_involutive.
Qed.

Lemma trailing_slashes_le data k : (trailing_slashes data k <= k)%nat.
Proof.
  induction k as [| i IH]; simpl; [lia |].
  destruct (data !! i) as [c |]; [| lia].
  destruct (is_slash c); lia.
Qed.

Lemma trailing_slashes_take data k :
  (k <= length data)%nat ->
  take k data =
    take (k - trailing_slashes data k) data
      ++ replicate (trailing_slashes data k) slash.
Proof.
  induction k as [| i IH]; intros Hk; simpl trailing_slashes.
  - simpl. reflexivity.
  - destruct (lookup_lt_is_Some_2 data i) as [c Hc]; [lia |].
    rewrite Hc. destruct (is_slash c) eqn:Hs.
    + apply is_slash_true in Hs. subst c.
      rewrite (take_S_r _ _ _ Hc), IH by lia.
      rewrite replicate_S_end, app_assoc.
      replace (S i - S (trailing_slashes data i))%nat
        with (i - trailing_slashes data i)%nat by lia.
      reflexivity.
    + rewrite Nat.sub_0_r. simpl replicate. rewrite app_nil_r. reflexivity.
Qed.

Lemma trailing_slashes_stop data k :
  (k <= length data)%nat -> (trailing_slashes data k < k)%nat ->
  exists c, data !! (k - trailing_slashes data k - 1)%nat = Some c
            /\ is_slash c = false.
Proof.
  induction k as [| i IH]; intros Hk; simpl trailing_slashes; [lia |].
  destruct (lookup_lt_is_Some_2 data i) as [c Hc]; [lia |].
  rewrite Hc. destruct (is_slash c) eqn:Hs; intros Ht.
  - destruct IH as [c' [Hc' Hs']]; [lia | lia |].
    exists c'. split; [| exact Hs'].
    replace (S i - S (trailing_slashes data i) - 1)%nat
      with (i - trailing_slashes data i - 1)%nat by lia.
    exact Hc'.
  - exists c. split; [| exact Hs].
    replace (S i - 0 - 1)%nat with i by lia. exact Hc.
Qed.

(** The scan computes the spec's stripped payload. *)
Lemma strip_take data k :
  (k <= length data)%nat ->
  strip_trailing_slashes (take k data)
  = take (k - trailing_slashes data k) data.
Proof.
  intros Hk. rewrite (trailing_slashes_take data k Hk) at 1.
  rewrite strip_app_slashes.
  pose proof (trailing_slashes_le data k) as Hle.
  destruct (decide (trailing_slashes data k = k)) as [He | Hne].
  - rewrite He, Nat.sub_diag. reflexivity.
  - destruct (trailing_slashes_stop data k Hk) as [c [Hc Hs]]; [lia |].
    replace (k - trailing_slashes data k)%nat
      with (S (k - trailing_slashes data k - 1)) by lia.
    rewrite (take_S_r _ _ _ Hc). apply strip_snoc_other. exact Hs.
Qed.

Lemma forallb_replicate_slash t : forallb is_slash (replicate t slash) = true.
Proof. induction t as [| t IH]; simpl; [reflexivity | exact IH]. Qed.

Lemma all_slashes_iff data k :
  (k <= length data)%nat ->
  forallb is_slash (take k data) = true <-> trailing_slashes data k = k.
Proof.
  intros Hk. split.
  - intros Hall.
    pose proof (trailing_slashes_le data k) as Hle.
    destruct (decide (trailing_slashes data k = k)) as [He | Hne]; [exact He |].
    destruct (trailing_slashes_stop data k Hk) as [c [Hc Hs]]; [lia |].
    assert (Hin : take k data !! (k - trailing_slashes data k - 1)%nat = Some c).
    { rewrite lookup_take_lt by lia. exact Hc. }
    apply list_elem_of_lookup_2, list_elem_of_In in Hin.
    rewrite forallb_forall in Hall. rewrite (Hall c Hin) in Hs. discriminate.
  - intros He. rewrite (trailing_slashes_take data k Hk), He, Nat.sub_diag.
    simpl. apply forallb_replicate_slash.
Qed.

Lemma strip_not_all_slashes (l : list byte) :
  forallb is_slash l = false ->
  strip_trailing_slashes l <> [] /\
  forallb is_slash (strip_trailing_slashes l) = false /\
  strip_trailing_slashes (strip_trailing_slashes l) = strip_trailing_slashes l.
Proof.
  intros Hall.
  assert (Hk : (length l <= length l)%nat) by lia.
  pose proof (strip_take l (length l) Hk) as Hs.
  pose proof (trailing_slashes_le l (length l)) as Hle.
  rewrite firstn_all in Hs.
  destruct (decide (trailing_slashes l (length l) = length l)) as [He | Hne].
  { apply (all_slashes_iff l (length l) Hk) in He.
    rewrite firstn_all in He. congruence. }
  destruct (trailing_slashes_stop l (length l) Hk) as [c [Hc Hsl]]; [lia |].
  pose proof Hc as Hc'.
  replace (length l - trailing_slashes l (length l))%nat
    with (S (length l - trailing_slashes l (length l) - 1)) in Hs by lia.
  rewrite (take_S_r _ _ _ Hc) in Hs. rewrite Hs.
  split; [| split].
  - intros Hnil. apply app_eq_nil in Hnil as [_ Hnil]. discriminate.
  - rewrite forallb_app. simpl. rewrite Hsl.
    rewrite andb_false_r. reflexivity.
  - apply strip_snoc_other. exact Hsl.
Qed.

Lemma rstrip_payload_idem (l : list byte) :
  rstrip_payload (rstrip_payload l) = rstrip_payload l.
Proof.
  unfold rstrip_payload at 2 3.
  destruct (forallb is_slash l) eqn:Hall.
  - unfold rstrip_payload. rewrite Hall. reflexivity.
  - destruct (strip_not_all_slashes l Hall) as [_ [Hno Hid]].
    unfold rstrip_payload. rewrite Hno. exact Hid.
Qed.

(** ** The primitives on the store *)

Lemma malloc_Ok n (h : heap) :
  0 <= n ->
  exists p, h !! p = None
    /\ malloc n h = Ok (p, <[p := CBuf (replicate (Z.to_nat n) None)]> h).
Proof.
  intros Hn. unfold malloc.
  destruct (Z.leb_spec 0 n); [| lia]. apply alloc_fresh.
Qed.

Lemma memcpy_data_Ok dst src n o b (h : heap) :
  h !! src = Some (CStr o) -> h !! dst = Some (CBuf b) ->
  0 <= n <= Z.of_nat (length (data_ o)) -> n <= Z.of_nat (length b) ->
  memcpy_data dst src n h
  = Ok (tt, <[dst := CBuf ((Some <$> take (Z.to_nat n) (data_ o))
                             ++ drop (Z.to_nat n) b)]> h).
Proof.
  intros Hsrc Hdst [Hn0 Hn1] Hn2. unfold memcpy_data.
  rewrite (bind_Ok _ _ _ _ _ (load_Str_Ok _ _ _ Hsrc)).
  rewrite (bind_Ok _ _ _ _ _ (load_buf_Ok _ _ _ Hdst)).
  destruct (Z.leb_spec 0 n); [| lia].
  destruct (Z.leb_spec n (Z.of_nat (length (data_ o)))); [| lia].
  destruct (Z.leb_spec n (Z.of_nat (length b))); [| lia].
  simpl. apply (store_buf_Ok _ _ _ _ Hdst).
Qed.

Lemma store_char_Ok buf i c b (h : heap) :
  h !! buf = Some (CBuf b) -> 0 <= i < Z.of_nat (length b) ->
  store_char buf i c h = Ok (tt, <[buf := CBuf (<[Z.to_nat i := Some c]> b)]> h).
Proof.
  intros Hbuf [Hi0 Hi1]. unfold store_char.
  rewrite (bind_Ok _ _ _ _ _ (load_buf_Ok _ _ _ Hbuf)).
  destruct (Z.leb_spec 0 i); [| lia].
  destruct (Z.ltb_spec i (Z.of_nat (length b))); [| lia].
  simpl. apply (store_buf_Ok _ _ _ _ Hbuf).
Qed.

Lemma read_bytes_Ok buf n b bytes (h : heap) :
  h !! buf = Some (CBuf b) -> 0 <= n <= Z.of_nat (length b) ->
  take (Z.to_nat n) b = Some <$> bytes ->
  read_bytes buf n h = Ok (bytes, h).
Proof.
  intros Hbuf [Hn0 Hn1] Htake. unfold read_bytes.
  rewrite (bind_Ok _ _ _ _ _ (load_buf_Ok _ _ _ Hbuf)).
  destruct (Z.leb_spec 0 n); [| lia].
  destruct (Z.leb_spec n (Z.of_nat (length b))); [| lia].
  simpl. rewrite Htake.
  rewrite (mapM_fmap_Some id Some bytes) by reflexivity.
  reflexivity.
Qed.

Lemma new_Str_Ok hdr buf b bytes (h : heap) :
  header_ok hdr ->
  h !! buf = Some (CBuf b) ->
  (length bytes <= length b)%nat ->
  take (length bytes) b = Some <$> bytes ->
  hdr + Z.of_nat (length bytes) + 1 <= INT_MAX ->
  exists r, h !! r = None
    /\ new_Str hdr buf (Z.of_nat (length bytes)) h
       = Ok (r, <[r := CStr (Str_of_bytes hdr bytes)]> h).
Proof.
  intros [Hh0 Hh1] Hbuf Hlen Htake Hmax. unfold new_Str.
  unfold sizeof_int, INT_MAX in *.
  erewrite bind_Ok; cycle 1.
  { apply (read_bytes_Ok _ _ _ bytes _ Hbuf); [lia |].
    rewrite Nat2Z.id. exact Htake. }
  erewrite bind_Ok; cycle 1.
  { apply int_add_Ok. unfold INT_MIN, INT_MAX. lia. }
  erewrite bind_Ok; cycle 1.
  { apply int_add_Ok. unfold INT_MIN, INT_MAX. lia. }
  apply alloc_fresh.
Qed.

Section Functions.

Variable kStrHeaderSize : Z.
Hypothesis Hhdr : header_ok kStrHeaderSize.

Lemma len_Ok s o (h : heap) :
  h !! s = Some (CStr o) ->
  kStrHeaderSize - 1 <= obj_len_ o <= INT_MAX ->
  len kStrHeaderSize s h = Ok (Str_len kStrHeaderSize o, h).
Proof.
  intros Hs [Hlo Hhi]. destruct Hhdr as [Hh0 Hh1].
  unfold sizeof_int, INT_MAX in *. unfold len.
  rewrite (bind_Ok _ _ _ _ _ (load_Str_Ok _ _ _ Hs)).
  erewrite bind_Ok; cycle 1.
  { apply int_sub_Ok. unfold INT_MIN, INT_MAX. lia. }
  erewrite bind_Ok; cycle 1.
  { unfold assert. destruct (Z.leb_spec (kStrHeaderSize - 1) (obj_len_ o)); [| lia].
    reflexivity. }
  erewrite bind_Ok; cycle 1.
  { apply int_sub_Ok. unfold INT_MIN, INT_MAX. lia. }
  apply int_sub_Ok. unfold INT_MIN, INT_MAX. lia.
Qed.

Lemma len_AssertFail s o (h : heap) :
  h !! s = Some (CStr o) ->
  obj_len_ o < kStrHeaderSize - 1 ->
  len kStrHeaderSize s h = AssertFail.
Proof.
  intros Hs Hlo. destruct Hhdr as [Hh0 Hh1].
  unfold sizeof_int, INT_MAX in *. unfold len.
  rewrite (bind_Ok _ _ _ _ _ (load_Str_Ok _ _ _ Hs)).
  erewrite bind_Ok; cycle 1.
  { apply int_sub_Ok. unfold INT_MIN, INT_MAX. lia. }
  unfold bind, assert.
  destruct (Z.leb_spec (kStrHeaderSize - 1) (obj_len_ o)); [lia |].
  reflexivity.
Qed.

Lemma rstrip_scan_Ok s o (h : heap) k z :
  h !! s = Some (CStr o) ->
  (k <= length (data_ o))%nat ->
  INT_MIN <= z - Z.of_nat k -> z <= INT_MAX ->
  rstrip_scan s k z h
  = Ok (z - Z.of_nat (trailing_slashes (data_ o) k), h).
Proof.
  intros Hs. revert z. induction k as [| i IH]; intros z Hk Hlo Hhi.
  - simpl. unfold ret. rewrite Z.sub_0_r. reflexivity.
  - destruct (lookup_lt_is_Some_2 (data_ o) i) as [c Hc]; [lia |].
    simpl rstrip_scan. simpl trailing_slashes. rewrite Hc.
    rewrite (bind_Ok _ _ _ _ _ (Str_data_at_Ok _ _ _ _ _ Hs Hc)).
    fold (is_slash c). destruct (is_slash c).
    + erewrite bind_Ok; cycle 1.
      { apply int_sub_Ok. lia. }
      rewrite IH by lia. do 2 f_equal. lia.
    + unfold ret. rewrite Z.sub_0_r. reflexivity.
Qed.

End Functions.

Section RstripSlashes.

Variable kStrHeaderSize : Z.
Hypothesis Hhdr : header_ok kStrHeaderSize.

Lemma Str_wf_len o :
  Str_wf kStrHeaderSize o ->
  0 <= Str_len kStrHeaderSize o
  /\ (Z.to_nat (Str_len kStrHeaderSize o) < length (data_ o))%nat
  /\ length (payload kStrHeaderSize o) = Z.to_nat (Str_len kStrHeaderSize o).
Proof.
  intros [[Hlo Hhi] Hroom]. unfold payload, Str_len in *.
  split; [lia |]. split; [lia |].
  apply length_take_le. lia.
Qed.

(** The raw block after [memcpy] and the store of the NUL. *)
Lemma filled_block (bytes : list byte) :
  <[length bytes := Some NUL]>
    ((Some <$> bytes) ++ drop (length bytes) (replicate (S (length bytes)) None))
  = (Some <$> bytes) ++ [Some NUL].
Proof.
  rewrite drop_replicate.
  replace (S (length bytes) - length bytes)%nat with 1%nat by lia.
  simpl replicate.
  rewrite (insert_app_r_alt (Some <$> bytes) [None] (length bytes));
    [| rewrite length_fmap; lia].
  rewrite length_fmap, Nat.sub_diag. reflexivity.
Qed.

(** The two early returns: an empty or all-slashes payload. *)
Lemma rstrip_slashes_kept s o (h : heap) :
  h !! s = Some (CStr o) -> Str_wf kStrHeaderSize o ->
  forallb is_slash (payload kStrHeaderSize o) = true ->
  rstrip_slashes kStrHeaderSize s h = Ok (s, h).
Proof.
  intros Hs Hwf Hall.
  destruct (Str_wf_len o Hwf) as [Hn0 [Hroom _]].
  destruct Hwf as [[Hlo Hhi] _].
  unfold rstrip_slashes.
  rewrite (bind_Ok _ _ _ _ _ (len_Ok _ Hhdr _ _ _ Hs ltac:(lia))).
  destruct (Z.eqb_spec (Str_len kStrHeaderSize o) 0) as [Hz | Hnz];
    [reflexivity |].
  erewrite bind_Ok; cycle 1.
  { apply (rstrip_scan_Ok _ _ _ _ _ Hs); [lia | | ].
    - rewrite Z2Nat.id by lia. unfold INT_MIN. lia.
    - unfold Str_len. destruct Hhdr. unfold sizeof_int in *. lia. }
  apply all_slashes_iff in Hall; [| lia].
  rewrite Hall, Z2Nat.id, Z.sub_diag by lia. reflexivity.
Qed.

(** The last return: the stripped payload is copied through a raw block
    into a new object, and the block holds the NUL the code stored. *)
Lemma rstrip_slashes_copied s o (h : heap) :
  h !! s = Some (CStr o) -> Str_wf kStrHeaderSize o ->
  forallb is_slash (payload kStrHeaderSize o) = false ->
  exists buf r,
    h !! buf = None /\ h !! r = None /\ buf <> r /\
    rstrip_slashes kStrHeaderSize s h
    = Ok (r,
          <[r := CStr (Str_of_bytes kStrHeaderSize
                         (strip_trailing_slashes (payload kStrHeaderSize o)))]>
            (<[buf := CBuf ((Some <$> strip_trailing_slashes
                                        (payload kStrHeaderSize o))
                            ++ [Some NUL])]> h)).
Proof.
  intros Hs Hwf Hall.
  destruct (Str_wf_len o Hwf) as [Hn0 [Hroom _]].
  destruct Hwf as [[Hlo Hhi] _].
  pose proof Hhdr as [Hh0 Hh1]. unfold sizeof_int in Hh0.
  unfold payload in *.
  set (n := Str_len kStrHeaderSize o) in *.
  set (k := Z.to_nat n) in *.
  set (t := trailing_slashes (data_ o) k).
  assert (Hn : n = Z.of_nat k) by (unfold k; lia).
  assert (Hnmax : n + kStrHeaderSize + 1 <= INT_MAX) by (unfold n, Str_len; lia).
  assert (Ht : (t < k)%nat).
  { pose proof (trailing_slashes_le (data_ o) k) as Hle. fold t in Hle.
    destruct (decide (t = k)) as [He | Hne]; [| lia].
    apply (all_slashes_iff (data_ o) k) in He; [congruence | lia]. }
  rewrite (strip_take (data_ o) k) by lia. fold t.
  set (bytes := take (k - t) (data_ o)).
  assert (Hbl : length bytes = (k - t)%nat).
  { unfold bytes. apply length_take_le. lia. }
  unfold rstrip_slashes.
  rewrite (bind_Ok _ _ _ _ _ (len_Ok _ Hhdr _ _ _ Hs ltac:(lia))).
  fold n. destruct (Z.eqb_spec n 0) as [Hz | _]; [lia |].
  erewrite bind_Ok; cycle 1.
  { apply (rstrip_scan_Ok _ _ _ _ _ Hs); [lia | unfold INT_MIN; lia | lia]. }
  fold k t.
  replace (n - Z.of_nat t) with (Z.of_nat (length bytes)) by lia.
  destruct (Z.eqb_spec (Z.of_nat (length bytes)) 0) as [Hz | _]; [lia |].
  erewrite bind_Ok; cycle 1.
  { apply int_add_Ok. unfold INT_MIN. lia. }
  destruct (malloc_Ok (Z.of_nat (length bytes) + 1) h) as [buf [Hbuf Hm]]; [lia |].
  rewrite (bind_Ok _ _ _ _ _ Hm).
  assert (Hsb : s <> buf) by congruence.
  replace (Z.to_nat (Z.of_nat (length bytes) + 1)) with (S (length bytes)) by lia.
  erewrite bind_Ok; cycle 1.
  { apply (memcpy_data_Ok _ _ _ o (replicate (S (length bytes)) None)).
    - rewrite lookup_insert_ne by congruence. exact Hs.
    - apply lookup_insert_eq.
    - lia.
    - rewrite length_replicate. lia. }
  rewrite insert_insert_eq, Nat2Z.id.
  assert (Hb : take (length bytes) (data_ o) = bytes)
    by (rewrite Hbl; reflexivity).
  rewrite Hb.
  erewrite bind_Ok; cycle 1.
  { apply store_char_Ok.
    - apply lookup_insert_eq.
    - rewrite length_app, length_fmap, length_drop, length_replicate. lia. }
  rewrite insert_insert_eq, Nat2Z.id, filled_block.
  destruct (new_Str_Ok kStrHeaderSize buf ((Some <$> bytes) ++ [Some NUL]) bytes
              (<[buf := CBuf ((Some <$> bytes) ++ [Some NUL])]> h) Hhdr)
    as [r [Hr Hnew]].
  - apply lookup_insert_eq.
  - rewrite length_app, length_fmap. simpl. lia.
  - rewrite <- (length_fmap Some bytes). apply take_app_length.
  - lia.
  - exists buf, r. split; [exact Hbuf |].
    destruct (decide (buf = r)) as [-> | Hne].
    { rewrite lookup_insert_eq in Hr. discriminate. }
    rewrite lookup_insert_ne in Hr by exact Hne.
    split; [exact Hr |]. split; [exact Hne |]. exact Hnew.
Qed.

End RstripSlashes.

(** ** Objects laid out by the allocator *)

Lemma strip_length (l : list byte) :
  (length (strip_trailing_slashes l) <= length l)%nat.
Proof.
  pose proof (strip_take l (length l) (Nat.le_refl _)) as Hs.
  rewrite firstn_all in Hs. rewrite Hs, length_take. lia.
Qed.

Lemma Str_len_of_bytes hdr bs :
  Str_len hdr (Str_of_bytes hdr bs) = Z.of_nat (length bs).
Proof. unfold Str_len, Str_of_bytes. simpl. lia. Qed.

Lemma payload_of_bytes hdr bs : payload hdr (Str_of_bytes hdr bs) = bs.
Proof.
  unfold payload. rewrite Str_len_of_bytes, Nat2Z.id.
  apply take_app_length.
Qed.

Lemma nul_terminated_of_bytes hdr bs : nul_terminated hdr (Str_of_bytes hdr bs).
Proof.
  unfold nul_terminated. rewrite Str_len_of_bytes, Nat2Z.id.
  apply list_lookup_middle. reflexivity.
Qed.

Lemma Str_wf_of_bytes hdr bs :
  hdr + Z.of_nat (length bs) + 1 <= INT_MAX -> Str_wf hdr (Str_of_bytes hdr bs).
Proof.
  intros Hmax. unfold Str_wf, Str_of_bytes. simpl.
  rewrite length_app. simpl. lia.
Qed.

(** What one call of [rstrip_slashes] on a constructed string yields. *)
Lemma rstrip_slashes_result hdr s o (h : heap) :
  header_ok hdr -> h !! s = Some (CStr o) -> Str_wf hdr o ->
  exists r h' o',
    rstrip_slashes hdr s h = Ok (r, h')
    /\ h' !! r = Some (CStr o')
    /\ Str_wf hdr o'
    /\ payload hdr o' = rstrip_payload (payload hdr o)
    /\ (nul_terminated hdr o -> nul_terminated hdr o').
Proof.
  intros Hhdr Hs Hwf. unfold rstrip_payload.
  destruct (forallb is_slash (payload hdr o)) eqn:Hall.
  - exists s, h, o.
    split; [apply (rstrip_slashes_kept hdr Hhdr s o h Hs Hwf Hall) |].
    split; [exact Hs |]. split; [exact Hwf |].
    split; [reflexivity | tauto].
  - destruct (rstrip_slashes_copied hdr Hhdr s o h Hs Hwf Hall)
      as [buf [r [_ [_ [_ Hrun]]]]].
    eexists r, _, _. split; [exact Hrun |].
    split; [apply lookup_insert_eq |].
    split; [| split].
    + apply Str_wf_of_bytes.
      pose proof (strip_length (payload hdr o)) as Hle.
      destruct (Str_wf_len hdr o Hwf) as [_ [_ Hpl]].
      destruct Hwf as [[Hlo Hhi] _]. unfold Str_len in Hpl. lia.
    + apply payload_of_bytes.
    + intros _. apply nul_terminated_of_bytes.
Qed.

Lemma header_ok_12 : header_ok hdr12.
Proof. unfold header_ok, sizeof_int, INT_MAX, hdr12. lia. Qed.

Lemma one_Str_lookup o : one_Str o !! 1%positive = Some (CStr o).
Proof. apply lookup_singleton_eq. Qed.

(** ** [os_path::rstrip_slashes] *)

(** C1. On a string whose payload is non-empty and not all slashes,
    [rstrip_slashes] returns a string whose payload is the payload of the
    argument without its trailing slashes; on "/a/b//" the result holds
    "/a/b". *)
Theorem rstrip_slashes_strips :
  (forall hdr s o (h : heap),
     header_ok hdr -> h !! s = Some (CStr o) -> Str_wf hdr o ->
     payload hdr o <> [] ->
     forallb is_slash (payload hdr o) = false ->
     exists r h' o',
       rstrip_slashes hdr s h = Ok (r, h')
       /\ h' !! r = Some (CStr o')
       /\ payload hdr o' = strip_trailing_slashes (payload hdr o))
  /\ (exists r h' o',
       rstrip_slashes hdr12 1%positive (one_Str (Str_of hdr12 "/a/b//"))
       = Ok (r, h')
       /\ h' !! r = Some (CStr o')
       /\ payload hdr12 o' = list_byte_of_string "/a/b").
Proof.
  assert (Hgen : forall hdr s o (h : heap),
     header_ok hdr -> h !! s = Some (CStr o) -> Str_wf hdr o ->
     payload hdr o <> [] ->
     forallb is_slash (payload hdr o) = false ->
     exists r h' o',
       rstrip_slashes hdr s h = Ok (r, h')
       /\ h' !! r = Some (CStr o')
       /\ payload hdr o' = strip_trailing_slashes (payload hdr o)).
  { intros hdr s o h Hhdr Hs Hwf _ Hall.
    destruct (rstrip_slashes_copied hdr Hhdr s o h Hs Hwf Hall)
      as [buf [r [_ [_ [_ Hrun]]]]].
    eexists r, _, _. split; [exact Hrun |].
    split; [apply lookup_insert_eq | apply payload_of_bytes]. }
  split; [exact Hgen |].
  destruct (Hgen hdr12 1%positive (Str_of hdr12 "/a/b//")
              (one_Str (Str_of hdr12 "/a/b//")))
    as [r [h' [o' [Hrun [Hr Hp]]]]].
  - exact header_ok_12.
  - apply one_Str_lookup.
  - unfold Str_wf. vm_compute. intuition discriminate.
  - vm_compute. discriminate.
  - vm_compute. reflexivity.
  - exists r, h', o'. split; [exact Hrun |]. split; [exact Hr |].
    rewrite Hp. vm_compute. reflexivity.
Qed.

Lemma rstrip_slashes_strips_witness :
  exists r h' o',
    rstrip_slashes hdr12 1%positive (one_Str (Str_of hdr12 "/a//")) = Ok (r, h')
    /\ h' !! r = Some (CStr o')
    /\ payload hdr12 o'
       = strip_trailing_slashes (payload hdr12 (Str_of hdr12 "/a//")).
Proof.
  apply (proj1 rstrip_slashes_strips hdr12 1%positive (Str_of hdr12 "/a//")).
  - unfold header_ok, sizeof_int, INT_MAX, hdr12. lia.
  - reflexivity.
  - unfold Str_wf. vm_compute. intuition discriminate.
  - vm_compute. discriminate.
  - vm_compute. reflexivity.
Defined.

(** C2. On a string whose payload is empty or all slashes,
    [rstrip_slashes] returns the pointer it was given and leaves the store
    as it was. *)
Theorem rstrip_slashes_all_slashes hdr s o (h : heap) :
  header_ok hdr -> h !! s = Some (CStr o) -> Str_wf hdr o ->
  payload hdr o = [] \/ forallb is_slash (payload hdr o) = true ->
  rstrip_slashes hdr s h = Ok (s, h).
Proof.
  intros Hhdr Hs Hwf Hall.
  apply (rstrip_slashes_kept hdr Hhdr s o h Hs Hwf).
  destruct Hall as [-> | Hall]; [reflexivity | exact Hall].
Qed.

Lemma rstrip_slashes_all_slashes_witness :
  rstrip_slashes hdr12 1%positive (one_Str (Str_of hdr12 "///"))
  = Ok (1%positive, one_Str (Str_of hdr12 "///")).
Proof.
  apply (rstrip_slashes_all_slashes hdr12 1%positive (Str_of hdr12 "///")).
  - unfold header_ok, sizeof_int, INT_MAX, hdr12. lia.
  - reflexivity.
  - unfold Str_wf. vm_compute. intuition discriminate.
  - right. vm_compute. reflexivity.
Defined.

(** C3, counterexample.  A string with no trailing slash is copied: the call allocates a raw
    block and a new object, and returns the new object, not its argument. *)
Lemma rstrip_slashes_abc_allocates :
  payload hdr12 (Str_of hdr12 "abc") = list_byte_of_string "abc"
  /\ last (payload hdr12 (Str_of hdr12 "abc")) = Some "c"%byte
  /\ rstrip_slashes hdr12 1%positive (one_Str (Str_of hdr12 "abc"))
     = Ok (3%positive,
           <[3%positive := CStr (Str_of hdr12 "abc")]>
             (<[2%positive := CBuf [Some "a"%byte; Some "b"%byte;
                                    Some "c"%byte; Some NUL]]>
                (one_Str (Str_of hdr12 "abc"))))
  /\ rstrip_slashes hdr12 1%positive (one_Str (Str_of hdr12 "abc"))
     <> Ok (1%positive, one_Str (Str_of hdr12 "abc")).
Proof.
  split; [vm_compute; reflexivity |].
  split; [vm_compute; reflexivity |].
  split; [vm_compute; reflexivity |].
  vm_compute. discriminate.
Qed.

(** C3, amended.  On a non-empty string whose payload does not end in a
    slash, [rstrip_slashes] allocates: a raw block, at an address that was
    free before the call, which holds the payload and the NUL when the
    call returns, and a new object with the same payload, at another
    address that was free; it returns a pointer to the new object, and
    the argument is still in the store, unchanged. *)
Theorem rstrip_slashes_no_trailing_slash_copies hdr s o (h : heap) c :
  header_ok hdr -> h !! s = Some (CStr o) -> Str_wf hdr o ->
  last (payload hdr o) = Some c -> is_slash c = false ->
  exists r h' o',
    rstrip_slashes hdr s h = Ok (r, h')
    /\ h !! r = None /\ r <> s
    /\ h' !! r = Some (CStr o')
    /\ payload hdr o' = payload hdr o
    /\ h' !! s = Some (CStr o)
    /\ h ⊆ h'
    /\ (exists buf,
          buf <> r /\ buf <> s /\ h !! buf = None
          /\ h' !! buf = Some (CBuf ((Some <$> payload hdr o) ++ [Some NUL])))
    /\ size h' = (size h + 2)%nat.
Proof.
  intros Hhdr Hs Hwf Hlast Hc.
  apply last_Some in Hlast as [p Hp].
  assert (Hall : forallb is_slash (payload hdr o) = false).
  { rewrite Hp, forallb_app. simpl. rewrite Hc. apply andb_false_r. }
  assert (Hstrip : strip_trailing_slashes (payload hdr o) = payload hdr o).
  { rewrite Hp. apply strip_snoc_other. exact Hc. }
  destruct (rstrip_slashes_copied hdr Hhdr s o h Hs Hwf Hall)
    as [buf [r [Hbuf [Hr [Hne Hrun]]]]].
  rewrite Hstrip in Hrun.
  assert (Hrs : r <> s) by congruence.
  assert (Hbs : buf <> s) by congruence.
  assert (Hr' : <[buf := CBuf ((Some <$> payload hdr o) ++ [Some NUL])]> h !! r
                = None).
  { rewrite lookup_insert_ne by exact Hne. exact Hr. }
  eexists r, _, _. split; [exact Hrun |].
  split; [exact Hr |]. split; [exact Hrs |].
  split; [apply lookup_insert_eq |].
  split; [apply payload_of_bytes |].
  split; [rewrite !lookup_insert_ne by congruence; exact Hs |].
  split; [| split].
  - etransitivity; [apply (insert_subseteq h buf); exact Hbuf |].
    apply insert_subseteq. exact Hr'.
  - exists buf. split; [exact Hne |]. split; [exact Hbs |].
    split; [exact Hbuf |].
    rewrite lookup_insert_ne by congruence. apply lookup_insert_eq.
  - rewrite (map_size_insert_None _ _ _ Hr').
    rewrite (map_size_insert_None _ _ _ Hbuf). lia.
Qed.

Lemma rstrip_slashes_no_trailing_slash_copies_witness :
  exists r h' o',
    rstrip_slashes hdr12 1%positive (one_Str (Str_of hdr12 "abc")) = Ok (r, h')
    /\ one_Str (Str_of hdr12 "abc") !! r = None /\ r <> 1%positive
    /\ h' !! r = Some (CStr o')
    /\ payload hdr12 o' = payload hdr12 (Str_of hdr12 "abc")
    /\ h' !! 1%positive = Some (CStr (Str_of hdr12 "abc"))
    /\ one_Str (Str_of hdr12 "abc") ⊆ h'
    /\ (exists buf,
          buf <> r /\ buf <> 1%positive
          /\ one_Str (Str_of hdr12 "abc") !! buf = None
          /\ h' !! buf
             = Some (CBuf ((Some <$> payload hdr12 (Str_of hdr12 "abc"))
                           ++ [Some NUL])))
    /\ size h' = (size (one_Str (Str_of hdr12 "abc")) + 2)%nat.
Proof.
  apply (rstrip_slashes_no_trailing_slash_copies hdr12 1%positive
           (Str_of hdr12 "abc") (one_Str (Str_of hdr12 "abc")) "c"%byte).
  - unfold header_ok, sizeof_int, INT_MAX, hdr12. lia.
  - reflexivity.
  - unfold Str_wf. vm_compute. intuition discriminate.
  - vm_compute. reflexivity.
  - vm_compute. reflexivity.
Defined.

(** ** [Str::SetObjLenFromStrLen] and [len] *)

Lemma SetObjLenFromStrLen_Ok hdr s o (h : heap) str_len :
  header_ok hdr -> h !! s = Some (CStr o) ->
  0 <= str_len -> hdr + str_len + 1 <= INT_MAX ->
  SetObjLenFromStrLen hdr s str_len h
  = Ok (tt, <[s := CStr (with_obj_len o (hdr + str_len + 1))]> h).
Proof.
  intros [Hh0 Hh1] Hs Hn0 Hn1. unfold sizeof_int in Hh0.
  unfold SetObjLenFromStrLen.
  rewrite (bind_Ok _ _ _ _ _ (load_Str_Ok _ _ _ Hs)).
  erewrite bind_Ok; cycle 1.
  { apply int_add_Ok. unfold INT_MIN. lia. }
  erewrite bind_Ok; cycle 1.
  { apply int_add_Ok. unfold INT_MIN. lia. }
  apply (store_Str_Ok _ _ _ _ Hs).
Qed.

(** C4, counterexample.  The sum [kStrHeaderSize + str_len + 1] leaves
    [int] at the top of the range of [str_len]. *)
Lemma SetObjLenFromStrLen_INT_MAX :
  0 <= INT_MAX
  /\ SetObjLenFromStrLen hdr12 1%positive INT_MAX (one_Str (Str_of hdr12 ""))
     = Undefined.
Proof. split; [vm_compute; discriminate | vm_compute; reflexivity]. Qed.

(** C4, amended.  For a string length from 0 up to
    [INT_MAX - kStrHeaderSize - 1], [SetObjLenFromStrLen] sets [obj_len_]
    to [kStrHeaderSize + str_len + 1], and [len] then returns [str_len]. *)
Theorem SetObjLenFromStrLen_len hdr s o (h : heap) str_len :
  header_ok hdr -> h !! s = Some (CStr o) ->
  0 <= str_len <= INT_MAX - hdr - 1 ->
  exists h' o',
    SetObjLenFromStrLen hdr s str_len h = Ok (tt, h')
    /\ h' !! s = Some (CStr o')
    /\ obj_len_ o' = hdr + str_len + 1
    /\ len hdr s h' = Ok (str_len, h')
    /\ obj_len_ o' - hdr - 1 = str_len.
Proof.
  intros Hhdr Hs [Hn0 Hn1].
  eexists _, _.
  split; [apply (SetObjLenFromStrLen_Ok hdr s o h str_len Hhdr Hs); lia |].
  split; [apply lookup_insert_eq |].
  split; [reflexivity |].
  split; [| simpl; lia].
  erewrite (len_Ok hdr Hhdr s); [| apply lookup_insert_eq |].
  - unfold Str_len. simpl. do 2 f_equal. lia.
  - simpl. destruct Hhdr as [Hh0 _]. unfold sizeof_int in Hh0. lia.
Qed.

Lemma SetObjLenFromStrLen_len_witness :
  exists h' o',
    SetObjLenFromStrLen hdr12 1%positive 5 (one_Str (Str_ctor 0 [])) = Ok (tt, h')
    /\ h' !! 1%positive = Some (CStr o')
    /\ obj_len_ o' = hdr12 + 5 + 1
    /\ len hdr12 1%positive h' = Ok (5, h')
    /\ obj_len_ o' - hdr12 - 1 = 5.
Proof.
  apply (SetObjLenFromStrLen_len hdr12 1%positive (Str_ctor 0 [])
           (one_Str (Str_ctor 0 [])) 5).
  - unfold header_ok, sizeof_int, INT_MAX, hdr12. lia.
  - reflexivity.
  - unfold INT_MAX, hdr12. lia.
Defined.

(** C5, counterexample.  A new object whose first payload byte is not
    zero keeps that byte. *)
Lemma SetObjLenFromStrLen_leaves_data :
  SetObjLenFromStrLen hdr12 1%positive 0 (one_Str (Str_ctor 0 ["A"%byte]))
  = Ok (tt, one_Str (with_obj_len (Str_ctor 0 ["A"%byte]) 13))
  /\ data_ (with_obj_len (Str_ctor 0 ["A"%byte]) 13) !! Z.to_nat 0
     = Some "A"%byte
  /\ ~ nul_terminated hdr12 (with_obj_len (Str_ctor 0 ["A"%byte]) 13).
Proof.
  split; [vm_compute; reflexivity |].
  split; [reflexivity |].
  unfold nul_terminated. vm_compute. discriminate.
Qed.

(** C5, amended.  [SetObjLenFromStrLen] sets [obj_len_] and nothing else:
    the payload bytes are the ones the object had, so [data_[str_len]] is
    0 after the call exactly when it was 0 before. *)
Theorem SetObjLenFromStrLen_frame hdr s o (h : heap) str_len :
  header_ok hdr -> h !! s = Some (CStr o) ->
  0 <= str_len <= INT_MAX - hdr - 1 ->
  exists o',
    SetObjLenFromStrLen hdr s str_len h = Ok (tt, <[s := CStr o']> h)
    /\ data_ o' = data_ o
    /\ hash_value_ o' = hash_value_ o
    /\ (nul_terminated hdr o' <-> data_ o !! Z.to_nat str_len = Some NUL).
Proof.
  intros Hhdr Hs [Hn0 Hn1].
  exists (with_obj_len o (hdr + str_len + 1)).
  split; [apply (SetObjLenFromStrLen_Ok hdr s o h str_len Hhdr Hs); lia |].
  split; [reflexivity |]. split; [reflexivity |].
  unfold nul_terminated, Str_len. simpl.
  replace (hdr + str_len + 1 - hdr - 1) with str_len by lia.
  reflexivity.
Qed.

Lemma SetObjLenFromStrLen_frame_witness :
  exists o',
    SetObjLenFromStrLen hdr12 1%positive 1
      (one_Str (Str_ctor 0 ["A"%byte; NUL]))
    = Ok (tt, <[1%positive := CStr o']> (one_Str (Str_ctor 0 ["A"%byte; NUL])))
    /\ data_ o' = ["A"%byte; NUL]
    /\ hash_value_ o' = 0
    /\ (nul_terminated hdr12 o'
        <-> ["A"%byte; NUL] !! Z.to_nat 1 = Some NUL).
Proof.
  apply (SetObjLenFromStrLen_frame hdr12 1%positive
           (Str_ctor 0 ["A"%byte; NUL])
           (one_Str (Str_ctor 0 ["A"%byte; NUL])) 1).
  - unfold header_ok, sizeof_int, INT_MAX, hdr12. lia.
  - reflexivity.
  - unfold INT_MAX, hdr12. lia.
Defined.

(** C6.  An object as long as the header alone, or one byte shorter, gets
    past the assertion of [len], which returns -1 or -2 for it. *)
Theorem len_negative_past_assert :
  len hdr12 1%positive (one_Str (with_obj_len (Str_ctor 0 []) hdr12))
  = Ok (-1, one_Str (with_obj_len (Str_ctor 0 []) hdr12))
  /\ len hdr12 1%positive (one_Str (with_obj_len (Str_ctor 0 []) (hdr12 - 1)))
     = Ok (-2, one_Str (with_obj_len (Str_ctor 0 []) (hdr12 - 1)))
  /\ SetObjLenFromStrLen hdr12 1%positive (-1) (one_Str (Str_ctor 0 []))
     = Ok (tt, one_Str (with_obj_len (Str_ctor 0 []) hdr12)).
Proof.
  split; [vm_compute; reflexivity |].
  split; vm_compute; reflexivity.
Qed.

(** C10.  A default-constructed [Str] has [obj_len_ = 0], which is below
    [kStrHeaderSize - 1]: [len] on it trips the assertion. *)
Theorem len_default_Str_asserts hdr hash raw s (h : heap) :
  header_ok hdr -> h !! s = Some (CStr (Str_ctor hash raw)) ->
  obj_len_ (Str_ctor hash raw) = 0
  /\ obj_len_ (Str_ctor hash raw) < hdr - 1
  /\ len hdr s h = AssertFail.
Proof.
  intros Hhdr Hs.
  assert (Hlt : obj_len_ (Str_ctor hash raw) < hdr - 1).
  { destruct Hhdr as [Hh0 _]. unfold sizeof_int in Hh0. simpl. lia. }
  split; [reflexivity |]. split; [exact Hlt |].
  apply (len_AssertFail hdr Hhdr s _ h Hs Hlt).
Qed.

Lemma len_default_Str_asserts_witness :
  obj_len_ (Str_ctor 0 [NUL]) = 0
  /\ obj_len_ (Str_ctor 0 [NUL]) < hdr12 - 1
  /\ len hdr12 1%positive (one_Str (Str_ctor 0 [NUL])) = AssertFail.
Proof.
  apply (len_default_Str_asserts hdr12 0 [NUL] 1%positive
           (one_Str (Str_ctor 0 [NUL]))).
  - unfold header_ok, sizeof_int, INT_MAX, hdr12. lia.
  - reflexivity.
Defined.

(** ** [path_stat::exists] *)

(** C7.  [exists] answers true exactly when [stat] on the NUL-terminated
    payload succeeds; whatever error [stat] reports the answer is false,
    the same for every error number, and the store is untouched. *)
Theorem exists_iff_stat_succeeds stat path o name (h : heap) :
  h !! path = Some (CStr o) -> c_str (data_ o) = Some name ->
  exists b,
    exists_ stat path h = Ok (b, h)
    /\ (b = true <-> exists m, stat name = StatOk m)
    /\ (forall e, stat name = StatErr e -> b = false)
    /\ (forall stat' e e',
          stat name = StatErr e -> stat' name = StatErr e' ->
          exists_ stat' path h = exists_ stat path h).
Proof.
  intros Hp Hname.
  assert (Hrun : forall st,
    exists_ st path h
    = Ok (if stat_rc (st name) <? 0 then false else true, h)).
  { intros st. unfold exists_.
    rewrite (bind_Ok _ _ _ _ _ (load_Str_Ok _ _ _ Hp)), Hname.
    destruct (stat_rc (st name) <? 0); reflexivity. }
  exists (if stat_rc (stat name) <? 0 then false else true).
  split; [apply Hrun |].
  split; [| split].
  - destruct (stat name) as [m | e]; simpl.
    + split; [intros _; exists m; reflexivity | reflexivity].
    + split; [discriminate | intros [m Hm]; discriminate].
  - intros e ->. reflexivity.
  - intros stat' e e' He He'. rewrite !Hrun, He, He'. reflexivity.
Qed.

Lemma exists_iff_stat_succeeds_witness :
  exists b,
    exists_ root_only 1%positive (one_Str (Str_of hdr12 "/"))
    = Ok (b, one_Str (Str_of hdr12 "/"))
    /\ (b = true <-> exists m, root_only ["/"%byte] = StatOk m)
    /\ (forall e, root_only ["/"%byte] = StatErr e -> b = false)
    /\ (forall stat' e e',
          root_only ["/"%byte] = StatErr e -> stat' ["/"%byte] = StatErr e' ->
          exists_ stat' 1%positive (one_Str (Str_of hdr12 "/"))
          = exists_ root_only 1%positive (one_Str (Str_of hdr12 "/"))).
Proof.
  apply (exists_iff_stat_succeeds root_only 1%positive (Str_of hdr12 "/")
           ["/"%byte] (one_Str (Str_of hdr12 "/"))).
  - reflexivity.
  - reflexivity.
Defined.

(** ** Invariants of [rstrip_slashes] *)

(** C8.  The string [rstrip_slashes] returns is NUL-terminated: with [m]
    its length as [len] reports it, the byte [data_[m]] is 0.  A returned
    argument has the NUL because the argument had.  A copied result is
    built from the raw block the code filled: when the call returns, the
    block holds the [m] payload bytes of the result and, at index [m], the
    0 that the code stored with [buf[new_len] = 0]; the result has the
    NUL whatever the argument had behind its payload. *)
Theorem rstrip_slashes_nul_terminated hdr s o (h : heap) :
  header_ok hdr -> h !! s = Some (CStr o) -> Str_wf hdr o ->
  exists r h' o' m,
    rstrip_slashes hdr s h = Ok (r, h')
    /\ h' !! r = Some (CStr o')
    /\ len hdr r h' = Ok (m, h')
    /\ 0 <= m
    /\ (r <> s \/ nul_terminated hdr o -> data_ o' !! Z.to_nat m = Some NUL)
    /\ ((forallb is_slash (payload hdr o) = true /\ r = s)
        \/ (forallb is_slash (payload hdr o) = false /\ r <> s
            /\ exists buf b,
                 buf <> r /\ h !! buf = None
                 /\ h' !! buf = Some (CBuf b)
                 /\ take (Z.to_nat m) b = Some <$> payload hdr o'
                 /\ b !! Z.to_nat m = Some (Some NUL))).
Proof.
  intros Hhdr Hs Hwf.
  destruct (forallb is_slash (payload hdr o)) eqn:Hall.
  - exists s, h, o, (Str_len hdr o).
    destruct (Str_wf_len hdr o Hwf) as [Hn0 _].
    split; [apply (rstrip_slashes_kept hdr Hhdr s o h Hs Hwf Hall) |].
    split; [exact Hs |].
    split; [| split; [exact Hn0 | split; [| left; split; reflexivity]]].
    + apply (len_Ok hdr Hhdr s o h Hs). destruct Hwf as [[Hlo Hhi] _]. lia.
    + intros [Hne | Hnul]; [congruence | exact Hnul].
  - destruct (rstrip_slashes_copied hdr Hhdr s o h Hs Hwf Hall)
      as [buf [r [Hbuf [Hr [Hne Hrun]]]]].
    set (bs := strip_trailing_slashes (payload hdr o)) in *.
    assert (Hmax : hdr + Z.of_nat (length bs) + 1 <= INT_MAX).
    { pose proof (strip_length (payload hdr o)) as Hle. fold bs in Hle.
      destruct (Str_wf_len hdr o Hwf) as [_ [_ Hpl]].
      destruct Hwf as [[Hlo Hhi] _]. unfold Str_len in Hpl. lia. }
    eexists r, _, (Str_of_bytes hdr bs), (Z.of_nat (length bs)).
    split; [exact Hrun |].
    split; [apply lookup_insert_eq |].
    split; [| split; [lia | split]].
    + rewrite <- (Str_len_of_bytes hdr bs).
      apply (len_Ok hdr Hhdr r); [apply lookup_insert_eq |].
      destruct Hhdr as [Hh0 _]. unfold sizeof_int in Hh0. simpl. lia.
    + intros _. rewrite <- (Str_len_of_bytes hdr bs).
      apply nul_terminated_of_bytes.
    + right. split; [reflexivity |]. split; [congruence |].
      exists buf, ((Some <$> bs) ++ [Some NUL]).
      split; [exact Hne |]. split; [exact Hbuf |].
      split; [rewrite lookup_insert_ne by congruence; apply lookup_insert_eq |].
      rewrite Nat2Z.id, payload_of_bytes.
      rewrite <- (length_fmap Some bs).
      split; [apply take_app_length | apply list_lookup_middle; reflexivity].
Qed.

Lemma rstrip_slashes_nul_terminated_witness :
  exists r h' o' m,
    rstrip_slashes hdr12 1%positive (one_Str (Str_of hdr12 "/a/b//"))
    = Ok (r, h')
    /\ h' !! r = Some (CStr o')
    /\ len hdr12 r h' = Ok (m, h')
    /\ 0 <= m
    /\ (r <> 1%positive \/ nul_terminated hdr12 (Str_of hdr12 "/a/b//") ->
        data_ o' !! Z.to_nat m = Some NUL)
    /\ ((forallb is_slash (payload hdr12 (Str_of hdr12 "/a/b//")) = true
         /\ r = 1%positive)
        \/ (forallb is_slash (payload hdr12 (Str_of hdr12 "/a/b//")) = false
            /\ r <> 1%positive
            /\ exists buf b,
                 buf <> r /\ one_Str (Str_of hdr12 "/a/b//") !! buf = None
                 /\ h' !! buf = Some (CBuf b)
                 /\ take (Z.to_nat m) b = Some <$> payload hdr12 o'
                 /\ b !! Z.to_nat m = Some (Some NUL))).
Proof.
  apply (rstrip_slashes_nul_terminated hdr12 1%positive
           (Str_of hdr12 "/a/b//") (one_Str (Str_of hdr12 "/a/b//"))).
  - unfold header_ok, sizeof_int, INT_MAX, hdr12. lia.
  - reflexivity.
  - unfold Str_wf. vm_compute. intuition discriminate.
Defined.

(** C9.  [rstrip_slashes] is idempotent on payloads: a second call, on the
    result of the first, returns a string with the payload of that
    result. *)
Theorem rstrip_slashes_idempotent hdr s o (h : heap) :
  header_ok hdr -> h !! s = Some (CStr o) -> Str_wf hdr o ->
  exists r1 h1 o1 r2 h2 o2,
    rstrip_slashes hdr s h = Ok (r1, h1)
    /\ h1 !! r1 = Some (CStr o1)
    /\ rstrip_slashes hdr r1 h1 = Ok (r2, h2)
    /\ h2 !! r2 = Some (CStr o2)
    /\ payload hdr o2 = payload hdr o1.
Proof.
  intros Hhdr Hs Hwf.
  destruct (rstrip_slashes_result hdr s o h Hhdr Hs Hwf)
    as [r1 [h1 [o1 [Hrun1 [Hr1 [Hwf1 [Hp1 _]]]]]]].
  destruct (rstrip_slashes_result hdr r1 o1 h1 Hhdr Hr1 Hwf1)
    as [r2 [h2 [o2 [Hrun2 [Hr2 [_ [Hp2 _]]]]]]].
  exists r1, h1, o1, r2, h2, o2.
  split; [exact Hrun1 |]. split; [exact Hr1 |].
  split; [exact Hrun2 |]. split; [exact Hr2 |].
  rewrite Hp2, Hp1. apply rstrip_payload_idem.
Qed.

Lemma rstrip_slashes_idempotent_witness :
  exists r1 h1 o1 r2 h2 o2,
    rstrip_slashes hdr12 1%positive (one_Str (Str_of hdr12 "/a//")) = Ok (r1, h1)
    /\ h1 !! r1 = Some (CStr o1)
    /\ rstrip_slashes hdr12 r1 h1 = Ok (r2, h2)
    /\ h2 !! r2 = Some (CStr o2)
    /\ payload hdr12 o2 = payload hdr12 o1.
Proof.
  apply (rstrip_slashes_idempotent hdr12 1%positive (Str_of hdr12 "/a//")
           (one_Str (Str_of hdr12 "/a//"))).
  - unfold header_ok, sizeof_int, INT_MAX, hdr12. lia.
  - reflexivity.
  - unfold Str_wf. vm_compute. intuition discriminate.
Defined.

(** ** More on [rstrip_slashes] *)

Lemma strip_decompose (l : list byte) :
  forallb is_slash l = false ->
  exists p c t,
    strip_trailing_slashes l = p ++ [c] /\ is_slash c = false
    /\ l = strip_trailing_slashes l ++ replicate t slash.
Proof.
  intros Hall.
  assert (Hk : (length l <= length l)%nat) by lia.
  pose proof (strip_take l (length l) Hk) as Hs.
  pose proof (trailing_slashes_take l (length l) Hk) as Ht.
  pose proof (trailing_slashes_le l (length l)) as Hle.
  rewrite firstn_all in Hs, Ht.
  destruct (decide (trailing_slashes l (length l) = length l)) as [He | Hne].
  { apply (all_slashes_iff l (length l) Hk) in He.
    rewrite firstn_all in He. congruence. }
  destruct (trailing_slashes_stop l (length l) Hk) as [c [Hc Hsl]]; [lia |].
  exists (take (length l - trailing_slashes l (length l) - 1) l), c,
    (trailing_slashes l (length l)).
  split; [| split; [exact Hsl |]].
  - rewrite Hs.
    replace (length l - trailing_slashes l (length l))%nat
      with (S (length l - trailing_slashes l (length l) - 1)) at 1 by lia.
    apply (take_S_r _ _ _ Hc).
  - rewrite Hs. exact Ht.
Qed.

(** X1.  What [rstrip_slashes] takes off is slashes and nothing else: the
    payload of the argument is the payload of the result followed by [k]
    slashes, and the length drops by [k].  The result is the argument
    itself, or a new string that is not empty and does not end in a
    slash. *)
Theorem rstrip_slashes_removes_only_slashes hdr s o (h : heap) :
  header_ok hdr -> h !! s = Some (CStr o) -> Str_wf hdr o ->
  exists r h' o' k,
    rstrip_slashes hdr s h = Ok (r, h')
    /\ h' !! r = Some (CStr o')
    /\ payload hdr o = payload hdr o' ++ replicate k slash
    /\ Str_len hdr o' = Str_len hdr o - Z.of_nat k
    /\ ((r = s /\ k = 0%nat)
        \/ (r <> s /\ exists p c, payload hdr o' = p ++ [c] /\ c <> slash)).
Proof.
  intros Hhdr Hs Hwf.
  destruct (forallb is_slash (payload hdr o)) eqn:Hall.
  - exists s, h, o, 0%nat.
    split; [apply (rstrip_slashes_kept hdr Hhdr s o h Hs Hwf Hall) |].
    split; [exact Hs |].
    split; [simpl; rewrite app_nil_r; reflexivity |].
    split; [lia | left; split; reflexivity].
  - destruct (rstrip_slashes_copied hdr Hhdr s o h Hs Hwf Hall)
      as [buf [r [_ [Hr [_ Hrun]]]]].
    destruct (strip_decompose _ Hall) as [p [c [t [Hpc [Hc Hdec]]]]].
    destruct (Str_wf_len hdr o Hwf) as [Hn0 [_ Hpl]].
    eexists r, _, _, t. split; [exact Hrun |].
    split; [apply lookup_insert_eq |].
    rewrite payload_of_bytes, Str_len_of_bytes.
    split; [exact Hdec |].
    split.
    + apply (f_equal length) in Hdec.
      rewrite length_app, length_replicate, Hpl in Hdec. lia.
    + right. split; [congruence |].
      exists p, c. split; [exact Hpc |].
      intros ->. discriminate Hc.
Qed.

Lemma rstrip_slashes_removes_only_slashes_witness :
  exists r h' o' k,
    rstrip_slashes hdr12 1%positive (one_Str (Str_of hdr12 "/a//b///"))
    = Ok (r, h')
    /\ h' !! r = Some (CStr o')
    /\ payload hdr12 (Str_of hdr12 "/a//b///")
       = payload hdr12 o' ++ replicate k slash
    /\ Str_len hdr12 o' = Str_len hdr12 (Str_of hdr12 "/a//b///") - Z.of_nat k
    /\ ((r = 1%positive /\ k = 0%nat)
        \/ (r <> 1%positive
            /\ exists p c, payload hdr12 o' = p ++ [c] /\ c <> slash)).
Proof.
  apply (rstrip_slashes_removes_only_slashes hdr12 1%positive
           (Str_of hdr12 "/a//b///")).
  - unfold header_ok, sizeof_int, INT_MAX, hdr12. lia.
  - reflexivity.
  - unfold Str_wf. vm_compute. intuition discriminate.
Defined.



(** X3.  On a string whose object length is below [kStrHeaderSize - 1], a
    default-constructed one for instance, [rstrip_slashes] stops at the
    assertion of [len]: it returns nothing and allocates nothing. *)
Theorem rstrip_slashes_assert hdr s o (h : heap) :
  header_ok hdr -> h !! s = Some (CStr o) -> obj_len_ o < hdr - 1 ->
  rstrip_slashes hdr s h = AssertFail.
Proof.
  intros Hhdr Hs Hlt. unfold rstrip_slashes, bind.
  rewrite (len_AssertFail hdr Hhdr s o h Hs Hlt). reflexivity.
Qed.

Lemma rstrip_slashes_assert_witness :
  rstrip_slashes hdr12 1%positive (one_Str (Str_ctor 0 [NUL])) = AssertFail.
Proof.
  apply (rstrip_slashes_assert hdr12 1%positive (Str_ctor 0 [NUL])).
  - unfold header_ok, sizeof_int, INT_MAX, hdr12. lia.
  - reflexivity.
  - vm_compute. reflexivity.
Defined.

(** X4.  The two object lengths that pass the assertion of [len] with a
    negative length, [kStrHeaderSize] and [kStrHeaderSize - 1], take
    [rstrip_slashes] out of defined behaviour: the scan is skipped, the
    negative length is not 0, and it reaches [memcpy] (or [malloc]) as a
    size. *)
Theorem rstrip_slashes_negative_len hdr s o (h : heap) :
  header_ok hdr -> h !! s = Some (CStr o) ->
  obj_len_ o = hdr \/ obj_len_ o = hdr - 1 ->
  rstrip_slashes hdr s h = Undefined.
Proof.
  intros Hhdr Hs Hlen. pose proof Hhdr as [Hh0 Hh1]. unfold sizeof_int in Hh0.
  unfold rstrip_slashes.
  rewrite (bind_Ok _ _ _ _ _ (len_Ok hdr Hhdr s o h Hs ltac:(lia))).
  unfold Str_len. destruct Hlen as [-> | ->].
  - replace (hdr - hdr - 1) with (-1) by lia. simpl.
    rewrite (bind_Ok (ret (-1)) _ h (-1) h eq_refl). simpl.
    erewrite bind_Ok; cycle 1.
    { apply int_add_Ok. unfold INT_MIN, INT_MAX. lia. }
    destruct (malloc_Ok (-1 + 1) h) as [buf [Hbuf Hm]]; [lia |].
    rewrite (bind_Ok _ _ _ _ _ Hm).
    assert (Hcp : forall hb, hb !! s = Some (CStr o) ->
              (exists b, hb !! buf = Some (CBuf b)) ->
              memcpy_data buf s (-1) hb = Undefined).
    { intros hb Hs' [b Hb]. unfold memcpy_data.
      rewrite (bind_Ok _ _ _ _ _ (load_Str_Ok _ _ _ Hs')).
      rewrite (bind_Ok _ _ _ _ _ (load_buf_Ok _ _ _ Hb)).
      reflexivity. }
    unfold bind at 1. rewrite Hcp; [reflexivity | |].
    + rewrite lookup_insert_ne by congruence. exact Hs.
    + eexists. apply lookup_insert_eq.
  - replace (hdr - 1 - hdr - 1) with (-2) by lia. simpl.
    rewrite (bind_Ok (ret (-2)) _ h (-2) h eq_refl). simpl.
    erewrite bind_Ok; cycle 1.
    { apply int_add_Ok. unfold INT_MIN, INT_MAX. lia. }
    reflexivity.
Qed.

Lemma rstrip_slashes_negative_len_witness :
  rstrip_slashes hdr12 1%positive
    (one_Str (with_obj_len (Str_ctor 0 [NUL]) hdr12)) = Undefined.
Proof.
  apply (rstrip_slashes_negative_len hdr12 1%positive
           (with_obj_len (Str_ctor 0 [NUL]) hdr12)).
  - unfold header_ok, sizeof_int, INT_MAX, hdr12. lia.
  - reflexivity.
  - left. reflexivity.
Defined.

(** ** More on [len] and [SetObjLenFromStrLen] *)

Lemma len_inv hdr s (h h' : heap) m :
  len hdr s h = Ok (m, h') ->
  h' = h /\ exists o, h !! s = Some (CStr o)
                      /\ hdr - 1 <= obj_len_ o
                      /\ m = obj_len_ o - hdr - 1
                      /\ INT_MIN <= m <= INT_MAX.
Proof.
  unfold len, bind, load_Str, int_sub, int_of, assert, ret, undefined.
  destruct (h !! s) as [[o | b] |]; try discriminate.
  destruct (in_int (hdr - 1)); try discriminate.
  destruct (Z.leb_spec (hdr - 1) (obj_len_ o)); try discriminate.
  destruct (in_int (obj_len_ o - hdr)); try discriminate.
  destruct (in_int (obj_len_ o - hdr - 1)) eqn:Hin; try discriminate.
  intros [= <- <-]. split; [reflexivity |]. exists o.
  unfold in_int in Hin. apply andb_prop in Hin as [Hlo Hhi].
  apply Z.leb_le in Hlo, Hhi. auto.
Qed.

Lemma with_obj_len_id (o : Str) : with_obj_len o (obj_len_ o) = o.
Proof. destruct o as [[t m n] hv d]. reflexivity. Qed.

(** X5.  If [len] returns at all, it returns at least -2, the store is as
    it was, and the object length is the header size plus the returned
    length plus one. *)
Theorem len_returns hdr s (h h' : heap) m :
  len hdr s h = Ok (m, h') ->
  h' = h /\ -2 <= m
  /\ exists o, h !! s = Some (CStr o) /\ obj_len_ o = hdr + m + 1.
Proof.
  intros Hlen.
  destruct (len_inv hdr s h h' m Hlen) as [Hh [o [Hs [Hlo [Hm _]]]]].
  split; [exact Hh |]. split; [lia |].
  exists o. split; [exact Hs | lia].
Qed.

Lemma len_returns_witness :
  one_Str (Str_of hdr12 "abc") = one_Str (Str_of hdr12 "abc") /\ -2 <= 3
  /\ exists o, one_Str (Str_of hdr12 "abc") !! 1%positive = Some (CStr o)
               /\ obj_len_ o = hdr12 + 3 + 1.
Proof.
  apply (len_returns hdr12 1%positive (one_Str (Str_of hdr12 "abc"))
           (one_Str (Str_of hdr12 "abc")) 3).
  vm_compute. reflexivity.
Defined.

(** X6.  Setting the length that [len] has just returned changes nothing:
    [SetObjLenFromStrLen(len(s))] returns and leaves the store as it
    was, also for the negative lengths that [len] lets through.  (The
    object length is an [int].) *)
Theorem len_SetObjLenFromStrLen hdr s o (h h' : heap) m :
  header_ok hdr -> h !! s = Some (CStr o) -> obj_len_ o <= INT_MAX ->
  len hdr s h = Ok (m, h') ->
  SetObjLenFromStrLen hdr s m h = Ok (tt, h).
Proof.
  intros [Hh0 Hh1] Hs Hmax Hlen. unfold sizeof_int in Hh0.
  destruct (len_inv hdr s h h' m Hlen) as [_ [o' [Hs' [Hlo [Hm [Hm0 Hm1]]]]]].
  assert (o' = o) by congruence. subst o'.
  unfold SetObjLenFromStrLen.
  rewrite (bind_Ok _ _ _ _ _ (load_Str_Ok _ _ _ Hs)).
  erewrite bind_Ok; cycle 1.
  { apply int_add_Ok. unfold INT_MIN, INT_MAX in *. lia. }
  erewrite bind_Ok; cycle 1.
  { apply int_add_Ok. unfold INT_MIN, INT_MAX in *. lia. }
  rewrite (store_Str_Ok _ _ _ _ Hs).
  replace (hdr + m + 1) with (obj_len_ o) by lia.
  rewrite with_obj_len_id, (insert_id h s _ Hs). reflexivity.
Qed.

Lemma len_SetObjLenFromStrLen_witness :
  SetObjLenFromStrLen hdr12 1%positive (-1)
    (one_Str (with_obj_len (Str_ctor 0 [NUL]) hdr12))
  = Ok (tt, one_Str (with_obj_len (Str_ctor 0 [NUL]) hdr12)).
Proof.
  apply (len_SetObjLenFromStrLen hdr12 1%positive
           (with_obj_len (Str_ctor 0 [NUL]) hdr12)
           (one_Str (with_obj_len (Str_ctor 0 [NUL]) hdr12))
           (one_Str (with_obj_len (Str_ctor 0 [NUL]) hdr12)) (-1)).
  - unfold header_ok, sizeof_int, INT_MAX, hdr12. lia.
  - reflexivity.
  - vm_compute. discriminate.
  - vm_compute. reflexivity.
Defined.

(** X7.  Two-phase construction: on an object whose allocation has room
    for [str_len] bytes and one more, [SetObjLenFromStrLen(str_len)] makes
    the first [str_len] bytes of the allocation the payload, whatever the
    object length was before, and the object is then a constructed
    string. *)
Theorem SetObjLenFromStrLen_payload hdr s o (h : heap) str_len :
  header_ok hdr -> h !! s = Some (CStr o) ->
  0 <= str_len <= INT_MAX - hdr - 1 ->
  str_len < Z.of_nat (length (data_ o)) ->
  exists o',
    SetObjLenFromStrLen hdr s str_len h = Ok (tt, <[s := CStr o']> h)
    /\ Str_wf hdr o'
    /\ payload hdr o' = take (Z.to_nat str_len) (data_ o)
    /\ Z.of_nat (length (payload hdr o')) = str_len.
Proof.
  intros Hhdr Hs [Hn0 Hn1] Hroom.
  exists (with_obj_len o (hdr + str_len + 1)).
  split; [apply (SetObjLenFromStrLen_Ok hdr s o h str_len Hhdr Hs); lia |].
  assert (Hl : Str_len hdr (with_obj_len o (hdr + str_len + 1)) = str_len)
    by (unfold Str_len; simpl; lia).
  split; [| split].
  - unfold Str_wf. simpl. lia.
  - unfold payload. rewrite Hl. reflexivity.
  - unfold payload. rewrite Hl. simpl. rewrite length_take. lia.
Qed.

Lemma SetObjLenFromStrLen_payload_witness :
  exists o',
    SetObjLenFromStrLen hdr12 1%positive 2
      (one_Str (Str_ctor 0 ["h"%byte; "i"%byte; NUL; "x"%byte]))
    = Ok (tt, <[1%positive := CStr o']>
                (one_Str (Str_ctor 0 ["h"%byte; "i"%byte; NUL; "x"%byte])))
    /\ Str_wf hdr12 o'
    /\ payload hdr12 o'
       = take (Z.to_nat 2) ["h"%byte; "i"%byte; NUL; "x"%byte]
    /\ Z.of_nat (length (payload hdr12 o')) = 2.
Proof.
  apply (SetObjLenFromStrLen_payload hdr12 1%positive
           (Str_ctor 0 ["h"%byte; "i"%byte; NUL; "x"%byte])).
  - unfold header_ok, sizeof_int, INT_MAX, hdr12. lia.
  - reflexivity.
  - unfold INT_MAX, hdr12. lia.
  - simpl. lia.
Defined.

(** ** More on [exists] *)

Lemma c_str_app (pre rest : list byte) :
  NUL ∉ pre -> c_str (pre ++ NUL :: rest) = Some pre.
Proof.
  induction pre as [| c pre IH]; intros Hnot; simpl; [reflexivity |].
  apply not_elem_of_cons in Hnot as [Hc Hpre].
  destruct (Byte.eqb c NUL) eqn:Heq.
  - apply Byte.byte_dec_bl in Heq. congruence.
  - rewrite (IH Hpre). reflexivity.
Qed.


Lemma exists_run stat path o name (h : heap) :
  h !! path = Some (CStr o) -> c_str (data_ o) = Some name ->
  exists_ stat path h
  = Ok (match stat name with StatOk _ => true | StatErr _ => false end, h).
Proof.
  intros Hp Hname. unfold exists_.
  rewrite (bind_Ok _ _ _ _ _ (load_Str_Ok _ _ _ Hp)), Hname.
  destruct (stat name); reflexivity.
Qed.

(** X8.  [exists] reads its path as a C string and never asks for the
    length: the path probed is the bytes of [data_] before the first NUL.
    The object length plays no part (no assertion can fail), the bytes
    behind the first NUL are ignored, and a payload with a NUL inside is
    probed only up to it. *)
Theorem exists_reads_c_string stat path o pre rest (h : heap) :
  h !! path = Some (CStr o) -> data_ o = pre ++ NUL :: rest -> NUL ∉ pre ->
  exists_ stat path h
  = Ok (match stat pre with StatOk _ => true | StatErr _ => false end, h).
Proof.
  intros Hp Hdata Hpre. apply (exists_run stat path o pre h Hp).
  rewrite Hdata. apply c_str_app. exact Hpre.
Qed.

Lemma exists_reads_c_string_witness :
  exists_ root_only 1%positive
    (one_Str (Str_ctor 0 ["/"%byte; NUL; "e"%byte; "t"%byte; "c"%byte; NUL]))
  = Ok (match root_only ["/"%byte] with
        | StatOk _ => true
        | StatErr _ => false
        end,
        one_Str (Str_ctor 0 ["/"%byte; NUL; "e"%byte; "t"%byte; "c"%byte; NUL])).
Proof.
  apply (exists_reads_c_string root_only 1%positive
           (Str_ctor 0 ["/"%byte; NUL; "e"%byte; "t"%byte; "c"%byte; NUL])
           ["/"%byte] ["e"%byte; "t"%byte; "c"%byte; NUL]).
  - reflexivity.
  - reflexivity.
  - intros Hin. apply list_elem_of_In in Hin. simpl in Hin.
    destruct Hin as [Hin | []]. discriminate Hin.
Defined.



(** X10.  [exists(rstrip_slashes(s))]: for a NUL-terminated string whose
    payload holds no NUL, the path probed after [rstrip_slashes] is the
    payload without its trailing slashes, or the payload itself when it
    is all slashes. *)
Theorem exists_after_rstrip_slashes hdr stat s o (h : heap) :
  header_ok hdr -> h !! s = Some (CStr o) -> Str_wf hdr o ->
  nul_terminated hdr o -> NUL ∉ payload hdr o ->
  exists r h',
    rstrip_slashes hdr s h = Ok (r, h')
    /\ exists_ stat r h'
       = Ok (match stat (rstrip_payload (payload hdr o)) with
             | StatOk _ => true
             | StatErr _ => false
             end, h').
Proof.
  intros Hhdr Hs Hwf Hnul Hnot. unfold rstrip_payload.
  destruct (forallb is_slash (payload hdr o)) eqn:Hall.
  - exists s, h.
    split; [apply (rstrip_slashes_kept hdr Hhdr s o h Hs Hwf Hall) |].
    apply (exists_run stat s o _ h Hs).
    rewrite <- (take_drop_middle _ _ _ Hnul). apply c_str_app. exact Hnot.
  - destruct (rstrip_slashes_copied hdr Hhdr s o h Hs Hwf Hall)
      as [buf [r [_ [_ [_ Hrun]]]]].
    destruct (strip_decompose _ Hall) as [_ [_ [t [_ [_ Hdec]]]]].
    eexists r, _. split; [exact Hrun |].
    eapply exists_run; [apply lookup_insert_eq |].
    simpl. apply c_str_app.
    intros Hin. apply Hnot. rewrite Hdec. apply elem_of_app. left. exact Hin.
Qed.

Lemma exists_after_rstrip_slashes_witness :
  exists r h',
    rstrip_slashes hdr12 1%positive (one_Str (Str_of hdr12 "/a//")) = Ok (r, h')
    /\ exists_ root_only r h'
       = Ok (match root_only (rstrip_payload
                                (payload hdr12 (Str_of hdr12 "/a//"))) with
             | StatOk _ => true
             | StatErr _ => false
             end, h').
Proof.
  apply (exists_after_rstrip_slashes hdr12 root_only 1%positive
           (Str_of hdr12 "/a//")).
  - unfold header_ok, sizeof_int, INT_MAX, hdr12. lia.
  - reflexivity.
  - unfold Str_wf. vm_compute. intuition discriminate.
  - vm_compute. reflexivity.
  - intros Hin. apply list_elem_of_In in Hin. vm_compute in Hin.
    intuition discriminate.
Defined.

(** ** mycpp/target_lang.cc *)

(** X11.  [compare] throws [std::invalid_argument] exactly when one of its
    arguments is negative; otherwise it returns 1 when [a < b] and 0 when
    not, so both orders return 0 only for equal arguments. *)
Theorem compare_cases a b :
  (compare a b = Throw (invalid_argument "received negative value")
   <-> a < 0 \/ b < 0)
  /\ (compare a b = Return 1 <-> 0 <= a < b)
  /\ (compare a b = Return 0 <-> 0 <= b <= a)
  /\ (compare a b = Return 0 /\ compare b a = Return 0 <-> 0 <= a /\ a = b).
Proof.
  unfold compare.
  destruct (Z.ltb_spec a 0), (Z.ltb_spec b 0), (Z.ltb_spec a b),
    (Z.ltb_spec b a); simpl;
    repeat split; intros; try discriminate; try lia; try reflexivity;
    intuition (try discriminate; try lia).
Qed.

(** X12.  [parse] throws [ParseError] exactly when the text starts with
    the byte [f], and returns 0 for every other text, the empty one
    included. *)
Theorem parse_cases text :
  (parse text = Throw (ParseError "started with f")
   <-> exists rest, text = "f"%byte :: rest)
  /\ (parse text = Return 0 <-> forall rest, text <> "f"%byte :: rest)
  /\ parse [] = Return 0.
Proof.
  split; [| split; [| reflexivity]].
  - unfold parse. destruct text as [| c rest]; simpl.
    + split; [discriminate | intros [r Hr]; discriminate].
    + destruct (Byte.eqb c "f") eqn:Heq.
      * apply Byte.byte_dec_bl in Heq. subst c.
        split; [intros _; exists rest; reflexivity | reflexivity].
      * apply Byte.eqb_false in Heq.
        split; [discriminate | intros [r Hr]; congruence].
  - unfold parse. destruct text as [| c rest]; simpl.
    + split; [intros _ r; discriminate | reflexivity].
    + destruct (Byte.eqb c "f") eqn:Heq.
      * apply Byte.byte_dec_bl in Heq. subst c.
        split; [discriminate | intros Hne; exfalso; apply (Hne rest); reflexivity].
      * apply Byte.eqb_false in Heq.
        split; [intros _ r; congruence | reflexivity].
Qed.

Lemma checked_in z : INT_MIN <= z <= INT_MAX -> checked z = Some z.
Proof. intros Hz. unfold checked. rewrite in_int_true by exact Hz. reflexivity. Qed.

Lemma checked_out z : INT_MAX < z -> checked z = None.
Proof.
  intros Hz. unfold checked, in_int.
  destruct (Z.leb_spec z INT_MAX); [lia |]. rewrite andb_false_r. reflexivity.
Qed.

(** X13.  The virtual [mag]: an object constructed as [SubPointC] answers
    0 whatever its coordinates; one constructed as [PointC] answers
    [x_ * x_ + y_ * y_] when that sum is at most [INT_MAX], and overflows
    otherwise. *)
Theorem mag_cases p :
  mag p
  = match dynamic_class p with
    | SubPointC_t => Some 0
    | PointC_t =>
        if x_ p * x_ p + y_ p * y_ p <=? INT_MAX
        then Some (x_ p * x_ p + y_ p * y_ p)
        else None
    end.
Proof.
  unfold mag. destruct (dynamic_class p); [| reflexivity].
  unfold PointC_mag.
  pose proof (Z.square_nonneg (x_ p)) as Hx.
  pose proof (Z.square_nonneg (y_ p)) as Hy.
  set (xx := x_ p * x_ p) in *. set (yy := y_ p * y_ p) in *.
  destruct (Z.leb_spec (xx + yy) INT_MAX) as [Hs | Hs].
  - rewrite !checked_in by (unfold INT_MIN, INT_MAX in *; lia).
    reflexivity.
  - destruct (Z.leb_spec xx INT_MAX) as [Hxx | Hxx];
      [| rewrite (checked_out xx Hxx); reflexivity].
    rewrite (checked_in xx) by (unfold INT_MIN, INT_MAX in *; lia).
    destruct (Z.leb_spec yy INT_MAX) as [Hyy | Hyy];
      [| rewrite (checked_out yy Hyy); reflexivity].
    rewrite (checked_in yy) by (unfold INT_MIN, INT_MAX in *; lia).
    apply checked_out. exact Hs.
Qed.

Lemma fold_push_back {T} (init acc : list T) :
  fold_left push_back init acc = acc ++ init.
Proof.
  revert acc. induction init as [| x init IH]; intros acc; simpl.
  - rewrite app_nil_r. reflexivity.
  - rewrite IH. unfold push_back. rewrite <- app_assoc. reflexivity.
Qed.

(** X14.  An [Array] built from an initializer list holds the elements of
    the list in their order; appending [items] one after the other puts
    them behind, in order; and [size] is the number of elements as long
    as that number is at most [INT_MAX]. *)
Theorem Array_of_append {T} (init items : list T) :
  Array_of init = init
  /\ fold_left append items (Array_of init) = init ++ items
  /\ (Z.of_nat (length (init ++ items)) <= INT_MAX ->
      size_ (fold_left append items (Array_of init))
      = Z.of_nat (length init) + Z.of_nat (length items)).
Proof.
  assert (Hof : Array_of init = init).
  { unfold Array_of. rewrite fold_push_back. reflexivity. }
  assert (Happ : fold_left append items (Array_of init) = init ++ items).
  { rewrite Hof. apply (fold_push_back items init). }
  split; [exact Hof |]. split; [exact Happ |].
  intros Hmax. rewrite Happ. unfold size_.
  unfold INT_MAX in *.
  rewrite Z.mod_small by lia.
  destruct (Z.leb_spec (Z.of_nat (length (init ++ items))) 2147483647);
    [| lia].
  rewrite length_app. lia.
Qed.

Lemma Array_of_append_witness :
  size_ (fold_left append [4; 5] (Array_of [1; 2; 3]))
  = Z.of_nat (length [1; 2; 3]) + Z.of_nat (length [4; 5]).
Proof.
  apply (proj2 (proj2 (Array_of_append [1; 2; 3] [4; 5]))).
  vm_compute. discriminate.
Defined.

(** ** Sharing between the argument and the result of [rstrip_slashes] *)

Lemma SetObjLenFromStrLen_Ok_int hdr s o (h : heap) str_len :
  h !! s = Some (CStr o) ->
  INT_MIN <= hdr + str_len -> hdr + str_len + 1 <= INT_MAX ->
  SetObjLenFromStrLen hdr s str_len h
  = Ok (tt, <[s := CStr (with_obj_len o (hdr + str_len + 1))]> h).
Proof.
  intros Hs Hlo Hhi. unfold SetObjLenFromStrLen.
  rewrite (bind_Ok _ _ _ _ _ (load_Str_Ok _ _ _ Hs)).
  erewrite bind_Ok; cycle 1.
  { apply int_add_Ok. unfold INT_MIN, INT_MAX in *. lia. }
  erewrite bind_Ok; cycle 1.
  { apply int_add_Ok. unfold INT_MIN, INT_MAX in *. lia. }
  apply (store_Str_Ok _ _ _ _ Hs).
Qed.

(** X15.  The result of [rstrip_slashes] may be the argument itself:
    setting the length of the result to 0 sets the length of an
    all-slashes argument to 0 as well, and leaves the length of any other
    argument as it was. *)
Theorem rstrip_slashes_sharing hdr s o (h : heap) :
  header_ok hdr -> h !! s = Some (CStr o) -> Str_wf hdr o ->
  exists r h' h'',
    rstrip_slashes hdr s h = Ok (r, h')
    /\ SetObjLenFromStrLen hdr r 0 h' = Ok (tt, h'')
    /\ len hdr s h''
       = Ok (if forallb is_slash (payload hdr o) then 0 else Str_len hdr o,
             h'').
Proof.
  intros Hhdr Hs Hwf. pose proof Hhdr as [Hh0 Hh1].
  unfold sizeof_int in Hh0.
  pose proof Hwf as [[Hlo Hhi] _].
  destruct (forallb is_slash (payload hdr o)) eqn:Hall.
  - eexists s, h, _.
    split; [apply (rstrip_slashes_kept hdr Hhdr s o h Hs Hwf Hall) |].
    split; [apply (SetObjLenFromStrLen_Ok hdr s o h 0 Hhdr Hs); lia |].
    erewrite (len_Ok hdr Hhdr s); [| apply lookup_insert_eq |].
    + unfold Str_len. simpl. do 2 f_equal. lia.
    + simpl. lia.
  - destruct (rstrip_slashes_copied hdr Hhdr s o h Hs Hwf Hall)
      as [buf [r [Hbuf [Hr [Hne Hrun]]]]].
    eexists r, _, _. split; [exact Hrun |].
    split.
    + eapply (SetObjLenFromStrLen_Ok hdr r); [exact Hhdr | | lia | lia].
      apply lookup_insert_eq.
    + apply (len_Ok hdr Hhdr s o).
      * rewrite !lookup_insert_ne by congruence. exact Hs.
      * lia.
Qed.

Lemma rstrip_slashes_sharing_witness :
  exists r h' h'',
    rstrip_slashes hdr12 1%positive (one_Str (Str_of hdr12 "///")) = Ok (r, h')
    /\ SetObjLenFromStrLen hdr12 r 0 h' = Ok (tt, h'')
    /\ len hdr12 1%positive h''
       = Ok (if forallb is_slash (payload hdr12 (Str_of hdr12 "///"))
             then 0 else Str_len hdr12 (Str_of hdr12 "///"),
             h'').
Proof.
  apply (rstrip_slashes_sharing hdr12 1%positive (Str_of hdr12 "///")).
  - unfold header_ok, sizeof_int, INT_MAX, hdr12. lia.
  - reflexivity.
  - unfold Str_wf. vm_compute. intuition discriminate.
Defined.

(** X16.  What the assertion of [len] guards after
    [SetObjLenFromStrLen(str_len)], for every [str_len] whose object
    length is an [int]: from -2 up, [len] returns [str_len]; below -2 the
    assertion fails. *)
Theorem SetObjLenFromStrLen_then_len hdr s o (h : heap) str_len :
  header_ok hdr -> h !! s = Some (CStr o) ->
  INT_MIN <= hdr + str_len -> hdr + str_len + 1 <= INT_MAX ->
  exists h',
    SetObjLenFromStrLen hdr s str_len h = Ok (tt, h')
    /\ len hdr s h' = if -2 <=? str_len then Ok (str_len, h') else AssertFail.
Proof.
  intros Hhdr Hs Hlo Hhi. pose proof Hhdr as [Hh0 Hh1].
  unfold sizeof_int in Hh0.
  eexists. split; [apply (SetObjLenFromStrLen_Ok_int hdr s o h _ Hs Hlo Hhi) |].
  destruct (Z.leb_spec (-2) str_len) as [Hge | Hlt].
  - erewrite (len_Ok hdr Hhdr s); [| apply lookup_insert_eq |].
    + unfold Str_len. simpl. do 2 f_equal. lia.
    + simpl. lia.
  - apply (len_AssertFail hdr Hhdr s
             (with_obj_len o (hdr + str_len + 1))); [apply lookup_insert_eq |].
    simpl. lia.
Qed.

Lemma SetObjLenFromStrLen_then_len_witness :
  exists h',
    SetObjLenFromStrLen hdr12 1%positive (-3) (one_Str (Str_ctor 0 [NUL]))
    = Ok (tt, h')
    /\ len hdr12 1%positive h'
       = if -2 <=? -3 then Ok (-3, h') else AssertFail.
Proof.
  apply (SetObjLenFromStrLen_then_len hdr12 1%positive (Str_ctor 0 [NUL])).
  - unfold header_ok, sizeof_int, INT_MAX, hdr12. lia.
  - reflexivity.
  - unfold INT_MIN, hdr12. lia.
  - unfold INT_MAX, hdr12. lia.
Defined.
